(** * LFCC / ResNet / OC-softmax spoofing detector: framing, ensemble
      bookkeeping and target handling of [model.py]

    A shallow embedding of [Model] from
    [project/02-asvspoof/lfcc-restnet-ocsoftmax/model.py] together with the
    properties its design document states about it.

    Conventions of the embedding.
    - Python integers are [Z]; [//] is [py_floordiv], which raises on a zero
      divisor, and slices follow Python's clipping rules ([py_slice]).
    - Floating-point tensors hold values of [tval]: exact rationals extended
      with the IEEE specials that a division by zero produces.  Rounding is
      not modelled, and neither is the sign of zero.
    - [torch.rand] reads an ambient generator: the state carries the
      generator as a function [gen] from the index of a draw to its value,
      and the index of the next draw.
    - [print] appends to the [stdout] component of the state; [sys.exit] and
      Python exceptions are the error results of the monad [M].
    - The protocol file is given by its lines, each split into its fields;
      [np_loadtxt] builds from them the array that [np.loadtxt] returns.
    - The LFCC front end, the ResNet backbone and the OC-softmax angle layer
      are external modules: the model record stores them as functions. *)

From Stdlib Require Import ZArith QArith Qcanon Qround Lia List.
From stdpp Require Import base numbers option list strings gmap.

Local Open Scope Z_scope.

(** ** Tensor entries *)

Inductive tval :=
  | Fin (q : Qc)
  | PInf
  | NInf
  | NaN.

Global Instance tval_eq_dec : EqDecision tval.
Proof. solve_decision. Defined.

Global Instance tval_inhabited : Inhabited tval := populate (Fin 0%Qc).

Definition tzero : tval := Fin 0%Qc.
Definition tone : tval := Fin 1%Qc.

Definition tneg (a : tval) : tval :=
  match a with
  | Fin q => Fin (- q)%Qc
  | PInf => NInf
  | NInf => PInf
  | NaN => NaN
  end.

Definition tadd (a b : tval) : tval :=
  match a, b with
  | NaN, _ | _, NaN => NaN
  | Fin p, Fin q => Fin (p + q)%Qc
  | PInf, NInf | NInf, PInf => NaN
  | PInf, _ | _, PInf => PInf
  | NInf, _ | _, NInf => NInf
  end.

Definition tsub (a b : tval) : tval := tadd a (tneg b).

(** The infinity whose sign is the sign of [q]; [NaN] for [q = 0]. *)
Definition inf_of_sign (q : Qc) : tval :=
  match (q ?= 0)%Qc with
  | Eq => NaN
  | Gt => PInf
  | Lt => NInf
  end.

Definition tmul (a b : tval) : tval :=
  match a, b with
  | NaN, _ | _, NaN => NaN
  | Fin p, Fin q => Fin (p * q)%Qc
  | Fin p, PInf | PInf, Fin p => inf_of_sign p
  | Fin p, NInf | NInf, Fin p => inf_of_sign (- p)%Qc
  | PInf, PInf | NInf, NInf => PInf
  | PInf, NInf | NInf, PInf => NInf
  end.

(** Division; a zero divisor is the (positive) zero of [torch.zeros]. *)
Definition tdiv (a b : tval) : tval :=
  match a, b with
  | NaN, _ | _, NaN => NaN
  | Fin p, Fin q =>
      if decide (q = 0%Qc) then inf_of_sign p else Fin (p / q)%Qc
  | Fin _, (PInf | NInf) => Fin 0%Qc
  | PInf, Fin q => if decide (q < 0)%Qc then NInf else PInf
  | NInf, Fin q => if decide (q < 0)%Qc then PInf else NInf
  | (PInf | NInf), (PInf | NInf) => NaN
  end.

(** [t.mean()] over all entries: the sum divided by the number of entries
    (an empty tensor has mean [NaN]). *)
Definition tsum (l : list tval) : tval := foldl tadd tzero l.

Definition tmean (l : list tval) : tval :=
  tdiv (tsum l) (Fin (Qc_of_Z (Z.of_nat (length l)))).

(** ** Errors, results, and the state/error monad *)

Inductive pyerr :=
  | SysExit (code : Z)
  | ZeroDivisionError
  | IndexError
  | RuntimeError
  | ValueError
  | TypeError.

Inductive result (A : Type) :=
  | Ok (a : A)
  | Err (e : pyerr).
Global Arguments Ok {A} a.
Global Arguments Err {A} e.

Global Instance result_ret : MRet result := λ A a, Ok a.
Global Instance result_bind : MBind result := λ A B f m,
  match m with
  | Ok a => f a
  | Err e => Err e
  end.

(** What [print] has written. *)
Inductive printed :=
  | PDimIncompatible (what : string) (dim mean_dim std_dim : Z)
  | PCannotFind (filenames : list string)
  | POutput (filename : string) (target : Z) (score : tval).

Record world := World {
  gen : nat → Qc;
  rng_next : nat;
  stdout : list printed
}.

Definition M (A : Type) : Type := world → result A * world.

Global Instance M_ret : MRet M := λ A a w, (Ok a, w).
Global Instance M_bind : MBind M := λ A B f m w,
  match m w with
  | (Ok a, w') => f a w'
  | (Err e, w') => (Err e, w')
  end.

Definition lift {A} (r : result A) : M A := λ w, (r, w).

Definition raise {A} (e : pyerr) : M A := lift (Err e).

Definition print (p : printed) : M unit := λ w,
  (Ok tt, World (gen w) (rng_next w) (stdout w ++ [p])).

(** [torch.rand([1])[0]]: the next draw of the generator. *)
Definition torch_rand : M Qc := λ w,
  (Ok (gen w (rng_next w)), World (gen w) (S (rng_next w)) (stdout w)).

(** [for a in l: s = body(a, s)], in any monad. *)
Fixpoint foldM `{MBind F, MRet F} {A St : Type}
    (body : A → St → F St) (l : list A) (s : St) : F St :=
  match l with
  | [] => mret s
  | a :: l' => s' ← body a s; foldM body l' s'
  end.

(** [range(n)] and [enumerate(l)] *)
Definition range (n : nat) : list nat := seq 0 n.

Definition enumerate {A} (l : list A) : list (nat * A) :=
  zip (seq 0 (length l)) l.

(** ** Python and torch primitives *)

(** [a // b] on Python integers. *)
Definition py_floordiv (a b : Z) : result Z :=
  if decide (b = 0) then Err ZeroDivisionError else Ok (a / b).

(** [int(np.ceil(a / b))] on Python integers, with the true division taken
    exactly: the ceiling of the quotient. *)
Definition np_ceil_div (a b : Z) : result Z :=
  if decide (b = 0) then Err ZeroDivisionError else Ok (- ((- a) / b)).

(** [l[i]] with a non-negative index. *)
Definition py_index {A} (l : list A) (i : nat) : result A :=
  match l !! i with
  | Some a => Ok a
  | None => Err IndexError
  end.

(** Where a slice bound lands in a sequence of length [len]. *)
Definition slice_bound (len : nat) (i : Z) : nat :=
  if decide (i < 0) then Z.to_nat (Z.max (i + Z.of_nat len) 0)
  else Nat.min (Z.to_nat i) len.

(** [l[a:b]] *)
Definition py_slice {A} (a b : Z) (l : list A) : list A :=
  let a' := slice_bound (length l) a in
  let b' := slice_bound (length l) b in
  take (b' - a') (drop a' l).

(** [t.repeat(1, rep)] along the frame axis, [t.repeat(rep)] on a vector. *)
Definition torch_repeat {A} (rep : Z) (l : list A) : result (list A) :=
  if decide (rep < 0) then Err RuntimeError
  else Ok (mjoin (replicate (Z.to_nat rep) l)).

(** [torch.zeros([n, ...])] along its first axis, [zero] being the zero
    tensor of the remaining axes. *)
Definition torch_zeros {A} (zero : A) (n : Z) : result (list A) :=
  if decide (n < 0) then Err RuntimeError
  else Ok (replicate (Z.to_nat n) zero).

(** [torch.ones([n])] *)
Definition torch_ones (n : Z) : result (list tval) :=
  if decide (n < 0) then Err RuntimeError
  else Ok (replicate (Z.to_nat n) tone).

(** The value written by [dst[...] = src] where the destination has [n]
    entries along the axis: sizes must agree, or the source has size one and
    is broadcast. *)
Definition broadcast_to {A} (n : nat) (src : list A) : result (list A) :=
  if decide (length src = n) then Ok src
  else match src with
       | [a] => Ok (replicate n a)
       | _ => Err RuntimeError
       end.

(** [buf[s:e] = src] *)
Definition assign_slice {A} (s e : Z) (src buf : list A) : result (list A) :=
  let s' := slice_bound (length buf) s in
  let e' := slice_bound (length buf) e in
  v ← broadcast_to (e' - s') src;
  Ok (take s' buf ++ v ++ drop (s' + (e' - s')) buf).

(** Elementwise [f] on two vectors under torch's broadcasting rule. *)
Definition broadcast2 (f : tval → tval → tval) (xs ys : list tval)
  : result (list tval) :=
  if decide (length xs = length ys) then Ok (zip_with f xs ys)
  else match xs, ys with
       | _, [y] => Ok ((λ x, f x y) <$> xs)
       | [x], _ => Ok (f x <$> ys)
       | _, _ => Err RuntimeError
       end.

(** [l[-1]] *)
Definition py_last {A} (l : list A) : result A :=
  match last l with
  | Some a => Ok a
  | None => Err IndexError
  end.

(** ** The model *)

Section Detector.

(** One waveform of the batch, one frame (the column [x[b, :, t]] of a
    feature tensor), one embedding row, and the second output of the
    backbone, which the model drops. *)
Context {wave frame emb aux : Type}.

(** What [torch.zeros] fills a frame and an embedding row with. *)
Variable frame_zero : frame.
Variable emb_zero : emb.

(** [nii_seq_tk.parse_filename] and [nii_seq_tk.parse_length] *)
Variable parse_filename : string → string.
Variable parse_length : string → Z.

(** The external modules.  A front end maps the batch to one feature map
    per row, given as its sequence of frames (the [permute(0, 2, 1)] of the
    source only changes the layout).  A backbone maps the batch of framed
    feature maps to embedding rows and a second output.  An angle layer maps
    embedding rows and the [angle] flag to cosine and margin scores; the
    model has [v_out_class = 1], so a score row is one value. *)
Definition frontend : Type := list wave → list (list frame).
Definition backbone : Type := list (list frame) → list emb * aux.
Definition anglelayer : Type := list emb → bool → list tval * list tval.

Record Model := {
  input_mean : list tval;
  input_std : list tval;
  output_mean : list tval;
  output_std : list tval;
  protocol_parser : gmap string Z;
  frame_hops : list Z;
  frame_lens : list Z;
  fft_n : list Z;
  lfcc_dim : list Z;
  v_truncate_lens : list Z;
  v_submodels : nat;
  v_emd_dim : Z;
  m_model : list backbone;
  m_frontend : list frontend;
  m_a_softmax : list anglelayer;
  training : bool
}.

(** *** Mean and standard deviation *)

Definition mean_std_t : Type :=
  list tval * list tval * list tval * list tval.

(** The parameter [args] of the source is not read and is left out; the
    four lines printed on a mismatch are one [PDimIncompatible]. *)
Definition prepare_mean_std (in_dim out_dim : Z)
    (data_mean_std : option mean_std_t) : M mean_std_t :=
  match data_mean_std with
  | Some (in_m, in_s, out_m, out_s) =>
      let len (v : list tval) := Z.of_nat (length v) in
      _ ← (if decide (len in_m ≠ in_dim ∨ len in_s ≠ in_dim)
           then _ ← print (PDimIncompatible "Input" in_dim (len in_m) (len in_s));
                raise (SysExit 1)
           else mret tt);
      _ ← (if decide (len out_m ≠ out_dim ∨ len out_s ≠ out_dim)
           then _ ← print (PDimIncompatible "Output" out_dim (len out_m) (len out_s));
                raise (SysExit 1)
           else mret tt);
      mret (in_m, in_s, out_m, out_s)
  | None =>
      in_m ← lift (torch_zeros tzero in_dim);
      in_s ← lift (torch_zeros tzero in_dim);
      out_m ← lift (torch_ones out_dim);
      out_s ← lift (torch_ones out_dim);
      mret (in_m, in_s, out_m, out_s)
  end.

(** A tensor is given by its rows along the last axis; the statistics are
    vectors broadcast against each row. *)
Definition normalize_input (self : Model) (x : list (list tval))
  : result (list (list tval)) :=
  mapM (λ row, d ← broadcast2 tsub row (input_mean self);
               broadcast2 tdiv d (input_std self)) x.

Definition normalize_target (self : Model) (y : list (list tval))
  : result (list (list tval)) :=
  mapM (λ row, d ← broadcast2 tsub row (output_mean self);
               broadcast2 tdiv d (output_std self)) y.

Definition denormalize_output (self : Model) (y : list (list tval))
  : result (list (list tval)) :=
  mapM (λ row, p ← broadcast2 tmul row (output_std self);
               broadcast2 tadd p (output_mean self)) y.

(** *** Protocol *)

(** A string array as [np.loadtxt(..., dtype='str')] returns it: of no, of
    one or of two dimensions. *)
Inductive ndarray :=
  | Array0 (item : string)
  | Array1 (items : list string)
  | Array2 (rows : list (list string)).

(** [np.loadtxt(path, dtype='str')] on a file whose lines, split at white
    space, are [lines].  A line without a field is skipped and lines that
    differ in their number of fields are refused.  The array is squeezed: a
    file of one line gives the one-dimensional array of its fields (a scalar
    array when there is one field), a file of one column gives the
    one-dimensional array of that column, and only a file of several lines
    of several fields gives a two-dimensional array. *)
Definition np_loadtxt (lines : list (list string)) : result ndarray :=
  match filter (λ line, line ≠ []) lines with
  | [] => Ok (Array1 [])
  | first :: rest =>
      if decide (Forall (λ line, length line = length first) rest) then
        match first, rest with
        | [item], [] => Ok (Array0 item)
        | _, [] => Ok (Array1 first)
        | [_], _ => Ok (Array1 (mjoin (first :: rest)))
        | _, _ => Ok (Array2 (first :: rest))
        end
      else Err ValueError
  end.

(** [s[i]] and [s[-1]] on a string: a string of one character. *)
Definition str_index (s : string) (i : nat) : result string :=
  match String.get i s with
  | Some c => Ok (String c EmptyString)
  | None => Err IndexError
  end.

Definition str_last (s : string) : result string :=
  match String.length s with
  | O => Err IndexError
  | S n => str_index s n
  end.

(** The body of the loop of [_protocol_parse], on [row[-1]] and [row[1]]. *)
Definition protocol_row (last_column : result string)
    (second_column : result string) (data_buffer : gmap string Z)
  : result (gmap string Z) :=
  label ← last_column;
  if decide (label = "bonafide")
  then key ← second_column; Ok (<[key := 1]> data_buffer)
  else key ← second_column; Ok (<[key := 0]> data_buffer).

(** The loop over a two-dimensional array: [row] is a row of strings. *)
Definition parse_rows (rows : list (list string)) : result (gmap string Z) :=
  foldM (λ row, protocol_row (py_last row) (py_index row 1)) rows ∅.

(** The loop over a one-dimensional array: [row] is a string, and indexing
    it gives its characters. *)
Definition parse_items (items : list string) : result (gmap string Z) :=
  foldM (λ row, protocol_row (str_last row) (str_index row 1)) items ∅.

(** [lines] are the lines of the protocol file.  Iterating over a scalar
    array is a [TypeError]. *)
Definition _protocol_parse (lines : list (list string))
  : result (gmap string Z) :=
  temp_buffer ← np_loadtxt lines;
  match temp_buffer with
  | Array2 rows => parse_rows rows
  | Array1 items => parse_items items
  | Array0 _ => Err TypeError
  end.

Definition _get_target (self : Model) (filenames : list string)
  : M (list Z) :=
  match mapM (λ x, protocol_parser self !! x) filenames with
  | Some target => mret target
  | None => _ ← print (PCannotFind filenames); raise (SysExit 1)
  end.

(** *** Framing *)

(** The start of the random crop: [torch.floor(torch.rand([1]) * d)[0]]
    for the draw [r].  The product is the exact one: its rounding to single
    precision is not modelled. *)
Definition crop_pos (r : Qc) (d : Z) : Z := Qfloor (r * Qc_of_Z d)%Qc.

(** The body of the loop over [fileidx] in [_front_end]. *)
Definition _front_end_row (x_sp_amp : list (list frame)) (fs trunc_len : Z)
    (datalength : list Z) (fileidx : nat) (x_sp_amp_buff : list (list frame))
  : M (list (list frame)) :=
  len ← lift (py_index datalength fileidx);
  true_frame_num ← lift (py_floordiv len fs);
  row ← lift (py_index x_sp_amp fileidx);
  if decide (true_frame_num > trunc_len) then
    r ← torch_rand;
    let pos := crop_pos r (true_frame_num - trunc_len) in
    let tmp := py_slice pos (trunc_len + pos) row in
    v ← lift (broadcast_to (Z.to_nat trunc_len) tmp);
    mret (<[fileidx := v]> x_sp_amp_buff)
  else
    rep ← lift (np_ceil_div trunc_len true_frame_num);
    tmp ← lift (torch_repeat rep (py_slice 0 true_frame_num row));
    v ← lift (broadcast_to (Z.to_nat trunc_len) (py_slice 0 trunc_len tmp));
    mret (<[fileidx := v]> x_sp_amp_buff).

Definition _front_end (self : Model) (wav : list wave) (idx : nat)
    (trunc_len : Z) (datalength : list Z) : M (list (list frame)) :=
  fe ← lift (py_index (m_frontend self) idx);
  let x_sp_amp := fe wav in
  zero_row ← lift (torch_zeros frame_zero trunc_len);
  let x_sp_amp_buff := replicate (length x_sp_amp) zero_row in
  fs ← lift (py_index (frame_hops self) idx);
  foldM (_front_end_row x_sp_amp fs trunc_len datalength)
        (range (length x_sp_amp)) x_sp_amp_buff.

(** *** Embeddings and scores *)

(** The body of the loop over the sub-models in [_compute_embedding]; of the
    zipped tuple only [trunc_len] and [m_model] are read. *)
Definition _compute_embedding_step (self : Model) (x : list wave)
    (datalength : list Z) (batch_size : Z)
    (it : nat * (Z * Z * Z * Z * backbone)) (output_score : list emb)
  : M (list emb) :=
  let '(idx, (fs, fl, fn, trunc_len, m_model)) := it in
  x_sp_amp ← _front_end self x idx trunc_len datalength;
  let '(features, final_output) := m_model x_sp_amp in
  lift (assign_slice (Z.of_nat idx * batch_size)
                     ((Z.of_nat idx + 1) * batch_size)
                     features output_score).

Definition _compute_embedding (self : Model) (x : list wave)
    (datalength : list Z) : M (list emb) :=
  let batch_size := Z.of_nat (length x) in
  output_score ←
    lift (torch_zeros emb_zero (batch_size * Z.of_nat (v_submodels self)));
  foldM (_compute_embedding_step self x datalength batch_size)
        (enumerate (zip (zip (zip (zip (frame_hops self) (frame_lens self))
                                  (fft_n self))
                             (v_truncate_lens self))
                        (m_model self)))
        output_score.

(** The body of the loop over [idx] in [_compute_score]. *)
Definition _compute_score_step (self : Model) (feature_vec : list emb)
    (angle : bool) (batch_size : Z) (idx : nat)
    (acc : list tval * list tval) : M (list tval * list tval) :=
  let '(x_cos_val, x_phi_val) := acc in
  let s_idx := Z.of_nat idx * batch_size in
  let e_idx := Z.of_nat idx * batch_size + batch_size in
  layer ← lift (py_index (m_a_softmax self) idx);
  let '(tmp1, tmp2) := layer (py_slice s_idx e_idx feature_vec) angle in
  x_cos_val ← lift (assign_slice s_idx e_idx tmp1 x_cos_val);
  x_phi_val ← lift (assign_slice s_idx e_idx tmp2 x_phi_val);
  mret (x_cos_val, x_phi_val).

Definition _compute_score (self : Model) (feature_vec : list emb)
    (angle : bool) : M (list tval * list tval) :=
  batch_size ← lift (py_floordiv (Z.of_nat (length feature_vec))
                                 (Z.of_nat (v_submodels self)));
  let x_cos_val := replicate (length feature_vec) tzero in
  let x_phi_val := replicate (length feature_vec) tzero in
  foldM (_compute_score_step self feature_vec angle batch_size)
        (range (v_submodels self)) (x_cos_val, x_phi_val).

(** *** The forward pass *)

Inductive forward_ret :=
  | RetTrain (a_softmax_act : list tval * list tval) (target_vec : list Z)
             (flag : bool)
  | RetNone.

Definition forward (self : Model) (x : list wave) (fileinfo : list string)
  : M forward_ret :=
  let filenames := parse_filename <$> fileinfo in
  let datalength := parse_length <$> fileinfo in
  if training self then
    feature_vec ← _compute_embedding self x datalength;
    a_softmax_act ← _compute_score self feature_vec false;
    target ← _get_target self filenames;
    target_vec ← lift (torch_repeat (Z.of_nat (v_submodels self)) target);
    mret (RetTrain a_softmax_act target_vec true)
  else
    feature_vec ← _compute_embedding self x datalength;
    scores ← _compute_score self feature_vec true;
    let score := fst scores in
    target ← _get_target self filenames;
    name0 ← lift (py_index filenames 0);
    target0 ← lift (py_index target 0);
    _ ← print (POutput name0 target0 (tmean score));
    mret RetNone.

(** *** Construction *)

(** The constructors of the external modules; [idx] tells the instances of
    one class apart. *)
Variable ResNet : nat → Z → backbone.
Variable LFCC : Z → Z → Z → Z → Z → frontend.
Variable OCAngleLayer : nat → Z → anglelayer.

(** The per-member settings that [__init__] assigns as literals. *)
Record hparams := {
  hp_frame_hops : list Z;
  hp_frame_lens : list Z;
  hp_fft_n : list Z;
  hp_lfcc_dim : list Z
}.

(** [frame_hops = [160]], [frame_lens = [320]], [fft_n = [512]],
    [lfcc_dim = [20]] *)
Definition source_hparams : hparams :=
  {| hp_frame_hops := [160]; hp_frame_lens := [320];
     hp_fft_n := [512]; hp_lfcc_dim := [20] |}.

Definition m_target_sr : Z := 16000.

(** The body of the loop of [__init__] that builds the module lists. *)
Definition init_step (hp : hparams) (emd_dim : Z)
    (it : nat * (Z * Z * Z))
    (acc : list backbone * list frontend * list anglelayer)
  : result (list backbone * list frontend * list anglelayer) :=
  let '(idx, _) := it in
  let '(models, frontends, softmaxes) := acc in
  fl ← py_index (hp_frame_lens hp) idx;
  fs ← py_index (hp_frame_hops hp) idx;
  fn ← py_index (hp_fft_n hp) idx;
  dim ← py_index (hp_lfcc_dim hp) idx;
  Ok (models ++ [ResNet idx emd_dim],
      frontends ++ [LFCC fl fs fn m_target_sr dim],
      softmaxes ++ [OCAngleLayer idx emd_dim]).

(** [Model.__init__]; [hp] stands for the literal settings and
    [temp_buffer] for the lines of the protocol file.  A fresh
    [torch.nn.Module] is in training mode. *)
Definition Model_init (hp : hparams) (in_dim out_dim : Z)
    (mean_std : option mean_std_t) (temp_buffer : list (list string))
  : M Model :=
  '(in_m, in_s, out_m, out_s) ← prepare_mean_std in_dim out_dim mean_std;
  parser ← lift (_protocol_parse temp_buffer);
  truncate_lens ← lift (mapM (λ x, py_floordiv (10 * 16 * 750) x)
                             (hp_frame_hops hp));
  let submodels := length (hp_frame_lens hp) in
  let emd_dim := 256 in
  '(models, frontends, softmaxes) ←
    lift (foldM (init_step hp emd_dim)
                (enumerate (zip (zip truncate_lens (hp_fft_n hp))
                                (hp_lfcc_dim hp)))
                ([], [], []));
  mret {| input_mean := in_m; input_std := in_s;
          output_mean := out_m; output_std := out_s;
          protocol_parser := parser;
          frame_hops := hp_frame_hops hp; frame_lens := hp_frame_lens hp;
          fft_n := hp_fft_n hp; lfcc_dim := hp_lfcc_dim hp;
          v_truncate_lens := truncate_lens;
          v_submodels := submodels;
          v_emd_dim := emd_dim;
          m_model := models; m_frontend := frontends;
          m_a_softmax := softmaxes;
          training := true |}.

(** [self.eval()] *)
Definition Model_eval (self : Model) : Model :=
  {| input_mean := input_mean self; input_std := input_std self;
     output_mean := output_mean self; output_std := output_std self;
     protocol_parser := protocol_parser self;
     frame_hops := frame_hops self; frame_lens := frame_lens self;
     fft_n := fft_n self; lfcc_dim := lfcc_dim self;
     v_truncate_lens := v_truncate_lens self;
     v_submodels := v_submodels self;
     v_emd_dim := v_emd_dim self;
     m_model := m_model self; m_frontend := m_frontend self;
     m_a_softmax := m_a_softmax self;
     training := false |}.

End Detector.

(** ** The loss wrapper *)

Section LossWrapper.

(** The value of the external [OCSoftmaxWithLoss] module, and the type of
    the [target] argument that the training loop hands to [compute]. *)
Context {loss target_t : Type}.

(** [self.m_loss], the external loss module. *)
Variable m_loss : list tval * list tval → list Z → loss.

(** What [compute] evaluates to: the loss, or the [TypeError] of
    subscripting [None]. *)
Inductive compute_ret :=
  | LossValue (l : loss)
  | TypeErrorNone.

(** [Loss.compute]: [self.m_loss(outputs[0], outputs[1])] on what [forward]
    returned. *)
Definition Loss_compute (outputs : forward_ret) (target : target_t)
  : compute_ret :=
  match outputs with
  | RetTrain a_softmax_act target_vec _ =>
      LossValue (m_loss a_softmax_act target_vec)
  | RetNone => TypeErrorNone
  end.

End LossWrapper.

(** ** A small instance to run the model on *)

Module Toy.

(** A waveform is given by its number of samples, a frame by its position in
    the feature map, an embedding row by one rational. *)
Definition LFCC (fl fs fn sr dim : Z) : @frontend Z Z :=
  λ wav, (λ n, seqZ 0 (n / fs + 1)) <$> wav.

Definition ResNet (idx : nat) (emd_dim : Z) : @backbone Z Qc unit :=
  λ x, ((λ row, Qc_of_Z (foldr Z.add (Z.of_nat idx) row)) <$> x, tt).

Definition OCAngleLayer (idx : nat) (emd_dim : Z) : @anglelayer Qc :=
  λ e angle,
    (Fin <$> e, (λ q, Fin (if angle then q / 2 else q)%Qc) <$> e).

Definition parse_filename (s : string) : string := s.

Definition parse_length (s : string) : Z :=
  if decide (s = "LA_T_1000") then 160000
  else if decide (s = "LA_T_1001") then 16000
  else 0.

Definition listing : list (list string) :=
  [ ["LA_0079"; "LA_T_1000"; "-"; "-"; "bonafide"];
    ["LA_0080"; "LA_T_1001"; "-"; "A01"; "spoof"] ].

Definition w0 : world := World (λ _, 1 / 2)%Qc 0 [].

Definition model : Type := @Model Z Z Qc unit.

Definition init (hp : hparams) (mean_std : option mean_std_t) : M model :=
  Model_init ResNet LFCC OCAngleLayer hp 1 1 mean_std listing.

Definition fwd (self : model) (x : list Z) (fileinfo : list string)
  : M forward_ret :=
  forward 0 0%Qc parse_filename parse_length self x fileinfo.

(** Two members, with hops of 160 and 320 samples. *)
Definition two_members : hparams :=
  {| hp_frame_hops := [160; 320]; hp_frame_lens := [320; 640];
     hp_fft_n := [512; 1024]; hp_lfcc_dim := [20; 20] |}.

Definition blank : model :=
  {| input_mean := []; input_std := []; output_mean := []; output_std := [];
     protocol_parser := ∅;
     frame_hops := []; frame_lens := []; fft_n := []; lfcc_dim := [];
     v_truncate_lens := []; v_submodels := 0; v_emd_dim := 0;
     m_model := []; m_frontend := []; m_a_softmax := [];
     training := true |}.

(** The model that [init] constructs in the state [w0]. *)
Definition built (hp : hparams) (mean_std : option mean_std_t) : model :=
  match (init hp mean_std w0).1 with
  | Ok m => m
  | Err _ => blank
  end.

(** The model of the source, with one member. *)
Definition single : model := built source_hparams None.

(** A model with statistics: output mean 3 and output deviation 2. *)
Definition scaled : model :=
  built two_members
        (Some ([tzero], [tone], [Fin (Qc_of_Z 3)], [Fin (Qc_of_Z 2)])).

(** The ensemble, a batch of two utterances of 160000 and 16000 samples, and
    its file information. *)
Definition ensemble : model := built two_members None.
Definition batch : list Z := [160000; 16000].
Definition infos : list string := ["LA_T_1000"; "LA_T_1001"].

(** A loss that keeps what it was given. *)
Definition m_loss (scores : list tval * list tval) (labels : list Z)
  : list tval * list Z :=
  (scores.1, labels).

End Toy.

(** ** Vocabulary of the statements *)

(** A tensor all of whose entries are finite. *)
Definition finite (l : list tval) (q : list Qc) : Prop := l = Fin <$> q.

(** The tensor with the given finite entries, row by row. *)
Definition fin_rows (yq : list (list Qc)) : list (list tval) :=
  (λ row : list Qc, Fin <$> row) <$> yq.




(** What [_front_end] writes for a row with [true_frame_num] frames, [r]
    being the draw of the row when it is cropped. *)
Definition framed {frame} (r : Qc) (trunc_len true_frame_num : Z)
    (row : list frame) : list frame :=
  if decide (true_frame_num > trunc_len) then
    let pos := crop_pos r (true_frame_num - trunc_len) in
    py_slice pos (trunc_len + pos) row
  else
    py_slice 0 trunc_len
      (mjoin (replicate (Z.to_nat (- (- trunc_len / true_frame_num)))
                        (py_slice 0 true_frame_num row))).

(** Every row of the feature tensor has a length in [datalength], at least
    one frame by the count [length // fs], and at least that many frames. *)
Definition rows_ready {frame} (x_sp_amp : list (list frame)) (fs : Z)
    (datalength : list Z) : Prop :=
  ∀ i row, x_sp_amp !! i = Some row →
    ∃ len, datalength !! i = Some len
      ∧ 1 ≤ len / fs ∧ len / fs ≤ Z.of_nat (length row).

(** The per-member lists of the model all have [v_submodels] entries. *)
Definition well_formed {wave frame emb aux}
    (self : @Model wave frame emb aux) : Prop :=
  let N := v_submodels self in
  length (frame_hops self) = N ∧ length (frame_lens self) = N
  ∧ length (fft_n self) = N ∧ length (v_truncate_lens self) = N
  ∧ length (m_model self) = N ∧ length (m_frontend self) = N
  ∧ length (m_a_softmax self) = N.

(** The external modules return one row per row of their input. *)
Definition row_preserving {wave frame emb aux}
    (self : @Model wave frame emb aux) : Prop :=
  (∀ fe, fe ∈ m_frontend self → ∀ x, length (fe x) = length x)
  ∧ (∀ fm, fm ∈ m_model self → ∀ x, length (fm x).1 = length x)
  ∧ (∀ layer, layer ∈ m_a_softmax self → ∀ e angle,
       length (layer e angle).1 = length e
       ∧ length (layer e angle).2 = length e).

(** Every member can frame the batch: its hop is not zero, its truncation
    length is not negative, and its feature tensor is [rows_ready]. *)
Definition batch_ready {wave frame emb aux}
    (self : @Model wave frame emb aux) (x : list wave)
    (datalength : list Z) : Prop :=
  ∀ idx fe fs trunc_len,
    m_frontend self !! idx = Some fe → frame_hops self !! idx = Some fs →
    v_truncate_lens self !! idx = Some trunc_len →
    fs ≠ 0 ∧ 0 ≤ trunc_len ∧ rows_ready (fe x) fs datalength.

(** The rows [[idx * B, (idx + 1) * B)] of a stacked buffer. *)
Definition member_rows {A} (B idx : nat) (buf : list A) : list A :=
  take B (drop (idx * B) buf).

(** How many of the first [n] rows are cropped: those whose count of true
    frames exceeds [trunc_len]. *)
Definition cropped_rows (fs trunc_len : Z) (datalength : list Z) (n : nat)
  : nat :=
  length (filter (λ len, len / fs > trunc_len) (take n datalength)).

(** The statistics handed to the constructor fit the declared dimensions:
    every vector has the dimension of its side, or there are none and the
    dimensions are not negative. *)
Definition stats_fit (in_dim out_dim : Z) (mean_std : option mean_std_t)
  : Prop :=
  match mean_std with
  | Some (in_m, in_s, out_m, out_s) =>
      Z.of_nat (length in_m) = in_dim ∧ Z.of_nat (length in_s) = in_dim
      ∧ Z.of_nat (length out_m) = out_dim ∧ Z.of_nat (length out_s) = out_dim
  | None => 0 ≤ in_dim ∧ 0 ≤ out_dim
  end.

(** The sum of finitely many rationals. *)
Definition Qc_sum (qs : list Qc) : Qc := foldr Qcplus 0%Qc qs.

(** The generator draws from [[0, 1)]. *)
Definition unit_draws (w : world) : Prop :=
  ∀ n, (0 ≤ gen w n)%Qc ∧ (gen w n < 1)%Qc.

(** ** Decidable equality of results, for evaluation on concrete inputs *)

Global Instance pyerr_eq_dec : EqDecision pyerr.
Proof. solve_decision. Defined.

Global Instance result_eq_dec `{EqDecision A} : EqDecision (result A).
Proof. solve_decision. Defined.

Global Instance printed_eq_dec : EqDecision printed.
Proof. solve_decision. Defined.

Global Instance forward_ret_eq_dec : EqDecision forward_ret.
Proof. solve_decision. Defined.

(** Closes a decidable closed goal by evaluation. *)
Ltac by_evaluation := apply (bool_decide_unpack _); vm_compute; exact I.

(** ** The monads *)

Lemma bind_Ok {A B} (m : M A) (f : A → M B) w a w' :
  m w = (Ok a, w') → (m ≫= f) w = f a w'.
Proof. intros Hm. unfold mbind, M_bind. by rewrite Hm. Qed.

Lemma bind_Err {A B} (m : M A) (f : A → M B) w e w' :
  m w = (Err e, w') → (m ≫= f) w = (Err e, w').
Proof. intros Hm. unfold mbind, M_bind. by rewrite Hm. Qed.

Lemma bind_lift_Ok {A B} (a : A) (f : A → M B) w :
  (lift (Ok a) ≫= f) w = f a w.
Proof. done. Qed.

Lemma mapM_result_Ok {A B} (f : A → result B) l k :
  Forall2 (λ x y, f x = Ok y) l k → mapM f l = Ok k.
Proof.
  induction 1 as [|x y l k Hxy _ IH]; [done|].
  cbn. rewrite Hxy. cbn. by rewrite IH.
Qed.


(** A loop whose body keeps an invariant runs to its end. *)
Lemma foldM_invariant {A St} (body : A → St → M St)
    (Inv : nat → St → world → Prop) l s w :
  Inv 0%nat s w →
  (∀ i a s w, l !! i = Some a → Inv i s w →
     ∃ s' w', body a s w = (Ok s', w') ∧ Inv (S i) s' w') →
  ∃ s' w', foldM body l s w = (Ok s', w') ∧ Inv (length l) s' w'.
Proof.
  revert Inv s w. induction l as [|a l IH]; intros Inv s w H0 Hstep.
  - by exists s, w.
  - destruct (Hstep 0%nat a s w eq_refl H0) as (s1 & w1 & Hb & H1).
    destruct (IH (λ i, Inv (S i)) s1 w1 H1) as (s2 & w2 & Hf & H2).
    { intros i b s' w' Hi. by apply (Hstep (S i)). }
    exists s2, w2. split; [|done].
    cbn. by rewrite (bind_Ok _ _ _ _ _ Hb).
Qed.

(** A loop whose iterations keep an invariant up to one that fails with
    [e] fails with [e]. *)
Lemma foldM_fails_at {A St} (body : A → St → M St)
    (Inv : nat → St → world → Prop) l i a e s w :
  l !! i = Some a → Inv 0%nat s w →
  (∀ j b s w, (j < i)%nat → l !! j = Some b → Inv j s w →
     ∃ s' w', body b s w = (Ok s', w') ∧ Inv (S j) s' w') →
  (∀ s w, Inv i s w → ∃ w', body a s w = (Err e, w')) →
  ∃ w', foldM body l s w = (Err e, w').
Proof.
  revert i Inv s w. induction l as [|b l IH]; intros i Inv s w Hi H0 Hstep Hbad;
    [done|].
  destruct i as [|i]; simplify_eq/=.
  - destruct (Hbad s w H0) as [w' Hb]. exists w'.
    by rewrite (bind_Err _ _ _ _ _ Hb).
  - destruct (Hstep 0%nat b s w ltac:(lia) eq_refl H0) as (s1 & w1 & Hb & H1).
    rewrite (bind_Ok _ _ _ _ _ Hb).
    apply (IH i (λ j, Inv (S j))); [done..| |done].
    intros j c s' w' Hj Hc. apply (Hstep (S j)); [lia|done].
Qed.

(** A loop fails as soon as one of its iterations cannot succeed. *)
Lemma foldM_fails {A St} (body : A → St → M St) l i a s w :
  l !! i = Some a →
  (∀ s w, ∃ e w', body a s w = (Err e, w')) →
  ∃ e w', foldM body l s w = (Err e, w').
Proof.
  revert i s w. induction l as [|b l IH]; intros i s w Hi Hbad; [done|].
  cbn. destruct (body b s w) as [[s1|e] w1] eqn:Hb.
  - rewrite (bind_Ok _ _ _ _ _ Hb). destruct i as [|i].
    + simplify_eq/=. destruct (Hbad s w) as (e & w' & He). congruence.
    + by apply (IH i).
  - rewrite (bind_Err _ _ _ _ _ Hb). eauto.
Qed.

(** ** Normalization *)

Lemma broadcast2_finite (f : tval → tval → tval) (g : Qc → Qc → Qc)
    (xs ys : list Qc) :
  length xs = length ys →
  (∀ a b, b ∈ ys → f (Fin a) (Fin b) = Fin (g a b)) →
  broadcast2 f (Fin <$> xs) (Fin <$> ys) = Ok (Fin <$> zip_with g xs ys).
Proof.
  intros Hlen Hf. unfold broadcast2.
  rewrite decide_True by (by rewrite !length_fmap). f_equal.
  revert ys Hlen Hf. induction xs as [|a xs IH]; intros [|b ys] ? Hf;
    simplify_eq/=; [done|].
  rewrite Hf by left. f_equal. apply IH; [done|].
  intros ???. apply Hf. by right.
Qed.

Lemma tdiv_finite (a b : Qc) : b ≠ 0%Qc → tdiv (Fin a) (Fin b) = Fin (a / b)%Qc.
Proof. intros Hb. cbn. by rewrite decide_False. Qed.

Lemma affine_round_trip (ys ms ss : list Qc) :
  length ys = length ss → length ms = length ss → Forall (λ s, s ≠ 0%Qc) ss →
  zip_with Qcplus (zip_with Qcmult (zip_with Qcdiv (zip_with Qcminus ys ms) ss) ss) ms
  = ys.
Proof.
  revert ms ss. induction ys as [|y ys IH]; intros [|m ms] [|s ss] ?? Hs;
    simplify_eq/=; [done|].
  inversion_clear Hs. f_equal; [by field|by apply IH].
Qed.

Section NormalizationFacts.
Context {wave frame emb aux : Type}.
Implicit Types self : @Model wave frame emb aux.

Lemma normalize_target_finite self (yq : list (list Qc)) (ms ss : list Qc) :
  finite (output_mean self) ms → finite (output_std self) ss →
  length ms = length ss → Forall (λ s, s ≠ 0%Qc) ss →
  Forall (λ row, length row = length ss) yq →
  normalize_target self (fin_rows yq)
  = Ok (fin_rows
          ((λ row, zip_with Qcdiv (zip_with Qcminus row ms) ss) <$> yq)).
Proof.
  intros Hm Hs Hlen Hnz Hrows. unfold normalize_target, fin_rows.
  apply mapM_result_Ok. rewrite <- !list_fmap_compose.
  apply Forall2_fmap, Forall_Forall2_diag.
  eapply Forall_impl; [exact Hrows|]. intros row Hrow. cbn in Hrow |- *.
  rewrite Hm, Hs.
  rewrite (broadcast2_finite tsub Qcminus) by (congruence || done). cbn.
  apply broadcast2_finite.
  - rewrite length_zip_with. lia.
  - intros a b Hb. apply tdiv_finite.
    by eapply (proj1 (Forall_forall _ _) Hnz).
Qed.

Lemma denormalize_output_finite self (yq : list (list Qc)) (ms ss : list Qc) :
  finite (output_mean self) ms → finite (output_std self) ss →
  length ms = length ss →
  Forall (λ row, length row = length ss) yq →
  denormalize_output self (fin_rows yq)
  = Ok (fin_rows
          ((λ row, zip_with Qcplus (zip_with Qcmult row ss) ms) <$> yq)).
Proof.
  intros Hm Hs Hlen Hrows. unfold denormalize_output, fin_rows.
  apply mapM_result_Ok. rewrite <- !list_fmap_compose.
  apply Forall2_fmap, Forall_Forall2_diag.
  eapply Forall_impl; [exact Hrows|]. intros row Hrow. cbn in Hrow |- *.
  rewrite Hm, Hs.
  rewrite (broadcast2_finite tmul Qcmult) by (congruence || done). cbn.
  apply broadcast2_finite; [|done].
  rewrite length_zip_with. lia.
Qed.

(** C9.  Over exact arithmetic, with finite statistics of the declared output
    dimension and no zero in [output_std], denormalizing a normalized target
    gives the target back: both calls succeed and
    [denormalize_output (normalize_target y) = y]. *)
Theorem denormalize_normalize_target self (yq : list (list Qc))
    (ms ss : list Qc) :
  finite (output_mean self) ms → finite (output_std self) ss →
  length ms = length ss → Forall (λ s, s ≠ 0%Qc) ss →
  Forall (λ row, length row = length ss) yq →
  normalize_target self (fin_rows yq) ≫= denormalize_output self
  = Ok (fin_rows yq).
Proof.
  intros Hm Hs Hlen Hnz Hrows.
  rewrite (normalize_target_finite self yq ms ss) by done. cbn.
  rewrite (denormalize_output_finite self _ ms ss); try done.
  - f_equal. unfold fin_rows. rewrite <- !list_fmap_compose.
    apply list_fmap_ext. intros i row Hi. cbn. f_equal.
    apply affine_round_trip; try done.
    apply (Forall_lookup_1 _ _ _ _ Hrows Hi).
  - apply Forall_fmap. eapply Forall_impl; [exact Hrows|].
    intros row Hrow. cbn in Hrow |- *. rewrite !length_zip_with. lia.
Qed.

End NormalizationFacts.

(** ** Protocol and targets *)





Section TargetFacts.
Context {wave frame emb aux : Type}.
Implicit Types self : @Model wave frame emb aux.

Lemma _get_target_found self (filenames : list string) (target : list Z) w :
  Forall2 (λ f l, protocol_parser self !! f = Some l) filenames target →
  _get_target self filenames w = (Ok target, w).
Proof.
  intros Hall. unfold _get_target.
  by rewrite (proj2 (mapM_Some _ _ _) Hall).
Qed.

Lemma _get_target_missing self (filenames : list string) f w :
  f ∈ filenames → protocol_parser self !! f = None →
  _get_target self filenames w
  = (Err (SysExit 1),
     World (gen w) (rng_next w) (stdout w ++ [PCannotFind filenames])).
Proof.
  intros Hin Hnone. unfold _get_target.
  destruct (mapM _ filenames) as [target|] eqn:Hmap; [|done].
  apply mapM_Some_1 in Hmap.
  apply list_elem_of_lookup in Hin as [i Hi].
  destruct (Forall2_lookup_l _ _ _ _ _ Hmap Hi) as (l & _ & Hl). congruence.
Qed.


End TargetFacts.

(** ** Random crop positions *)

Lemma Qfloor_unique (x : Q) (k : Z) :
  (inject_Z k <= x)%Q → (x < inject_Z (k + 1))%Q → Qfloor x = k.
Proof.
  intros Hle Hlt.
  assert (k ≤ Qfloor x).
  { rewrite <- (Qfloor_Z k). by apply Qfloor_resp_le. }
  assert (Qfloor x < k + 1).
  { rewrite Zlt_Qlt. eapply Qle_lt_trans; [apply Qfloor_le|done]. }
  lia.
Qed.

Lemma crop_pos_spec (r : Qc) (d k : Z) :
  crop_pos r d = k ↔
  (Qc_of_Z k ≤ r * Qc_of_Z d)%Qc ∧ (r * Qc_of_Z d < Qc_of_Z (k + 1))%Qc.
Proof.
  unfold crop_pos. split.
  - intros <-. split; [exact (Qfloor_le _)|exact (Qlt_floor _)].
  - intros [Hle Hlt]. apply Qfloor_unique; [exact Hle|exact Hlt].
Qed.

Lemma Qc_of_Z_pos (d : Z) : 0 < d → (0 < Qc_of_Z d)%Qc.
Proof. intros Hd. rewrite <- Z2Qc_inj_0. by apply (proj1 (Z2Qc_inj_lt 0 d)). Qed.

Lemma crop_pos_range (r : Qc) (d : Z) :
  (0 ≤ r)%Qc → (r < 1)%Qc → 0 < d → 0 ≤ crop_pos r d ≤ d - 1.
Proof.
  intros Hr0 Hr1 Hd.
  destruct (proj1 (crop_pos_spec r d _) eq_refl) as [Hle Hlt].
  pose proof (Qc_of_Z_pos d Hd) as Hdpos.
  assert (crop_pos r d < d).
  { apply (proj2 (Z2Qc_inj_lt _ _)). eapply Qcle_lt_trans; [exact Hle|].
    rewrite <- (Qcmult_1_l (Qc_of_Z d)) at 2.
    by apply Qcmult_lt_mono_pos_r. }
  assert (0 < crop_pos r d + 1).
  { apply (proj2 (Z2Qc_inj_lt _ _)). eapply Qcle_lt_trans; [|exact Hlt].
    rewrite Z2Qc_inj_0. apply Qcmult_nonneg_nonneg; [done|].
    by apply Qclt_le_weak. }
  lia.
Qed.



(** ** Slices and tiles *)

Lemma py_slice_inside {A} (a b : Z) (l : list A) :
  0 ≤ a → a ≤ b → b ≤ Z.of_nat (length l) →
  py_slice a b l = take (Z.to_nat (b - a)) (drop (Z.to_nat a) l).
Proof.
  intros Ha Hab Hb. unfold py_slice, slice_bound.
  rewrite !decide_False by lia. f_equal; f_equal; lia.
Qed.

Lemma length_py_slice_inside {A} (a b : Z) (l : list A) :
  0 ≤ a → a ≤ b → b ≤ Z.of_nat (length l) →
  length (py_slice a b l) = Z.to_nat (b - a).
Proof.
  intros Ha Hab Hb. rewrite py_slice_inside by done.
  rewrite length_take, length_drop. lia.
Qed.

Lemma lookup_py_slice_inside {A} (a b : Z) (l : list A) (j : nat) :
  0 ≤ a → a ≤ b → b ≤ Z.of_nat (length l) → (j < Z.to_nat (b - a))%nat →
  py_slice a b l !! j = l !! (Z.to_nat a + j)%nat.
Proof.
  intros Ha Hab Hb Hj. rewrite py_slice_inside by done.
  rewrite lookup_take, decide_True by done. apply lookup_drop.
Qed.

Lemma length_tile {A} (l : list A) (rep : nat) :
  length (mjoin (replicate rep l)) = (rep * length l)%nat.
Proof.
  induction rep as [|rep IH]; [done|].
  change (mjoin (replicate (S rep) l)) with (l ++ mjoin (replicate rep l)).
  rewrite length_app, IH. lia.
Qed.

Lemma lookup_tile {A} (l : list A) (rep j : nat) :
  (0 < length l)%nat → (j < rep * length l)%nat →
  mjoin (replicate rep l) !! j = l !! (j mod length l)%nat.
Proof.
  intros Hl. revert j. induction rep as [|rep IH]; intros j Hj; [lia|].
  change (mjoin (replicate (S rep) l)) with (l ++ mjoin (replicate rep l)).
  rewrite lookup_app.
  destruct (decide (j < length l)%nat) as [Hlt|Hge].
  - destruct (proj2 (lookup_lt_is_Some l j) Hlt) as [a Ha].
    rewrite Ha, Nat.mod_small by done. done.
  - rewrite lookup_ge_None_2 by lia. rewrite IH by lia.
    f_equal. replace j with (j - length l + 1 * length l)%nat at 2 by lia.
    by rewrite Nat.Div0.mod_add.
Qed.

Lemma ceil_covers (trunc_len true_frame_num : Z) :
  1 ≤ true_frame_num → 0 ≤ trunc_len →
  let rep := - (- trunc_len / true_frame_num) in
  (0 ≤ rep ∧ trunc_len ≤ rep * true_frame_num
   ∧ (rep - 1) * true_frame_num < trunc_len)
  ∨ (trunc_len = 0 ∧ rep = 0).
Proof.
  intros Hn Ht rep.
  pose proof (Z.div_mod (- trunc_len) true_frame_num ltac:(lia)) as Hdm.
  pose proof (Z.mod_pos_bound (- trunc_len) true_frame_num ltac:(lia)) as Hm.
  unfold rep. destruct (decide (trunc_len = 0)) as [->|Hne].
  - right. split; [done|]. by rewrite Z.div_0_l by lia.
  - left. nia.
Qed.

(** ** Framing *)

Section FramingFacts.
Context {frame : Type}.
Implicit Types row : list frame.
Implicit Types x_sp_amp buf : list (list frame).

Lemma length_framed r (trunc_len n : Z) row :
  (0 ≤ r)%Qc → (r < 1)%Qc → 0 ≤ trunc_len → 1 ≤ n →
  n ≤ Z.of_nat (length row) →
  length (framed r trunc_len n row) = Z.to_nat trunc_len.
Proof.
  intros Hr0 Hr1 Ht Hn Hrow. unfold framed.
  destruct (decide (n > trunc_len)) as [Hgt|Hle].
  - pose proof (crop_pos_range r (n - trunc_len) Hr0 Hr1 ltac:(lia)).
    rewrite length_py_slice_inside by lia. lia.
  - destruct (ceil_covers trunc_len n Hn Ht) as [(?&?&?)|[? Hrep]].
    + rewrite length_py_slice_inside; [lia..|].
      rewrite length_tile, length_py_slice_inside by lia. nia.
    + rewrite length_py_slice_inside; [lia..|].
      rewrite length_tile, length_py_slice_inside by lia. nia.
Qed.

Lemma broadcast_to_same {A} (n : nat) (src : list A) :
  length src = n → broadcast_to n src = Ok src.
Proof. intros Hn. unfold broadcast_to. by rewrite decide_True. Qed.

Lemma _front_end_row_ready x_sp_amp (fs trunc_len : Z) datalength i buf w
    row len :
  x_sp_amp !! i = Some row → datalength !! i = Some len →
  fs ≠ 0 → 0 ≤ trunc_len →
  1 ≤ len / fs → len / fs ≤ Z.of_nat (length row) →
  (0 ≤ gen w (rng_next w))%Qc → (gen w (rng_next w) < 1)%Qc →
  ∃ w', _front_end_row x_sp_amp fs trunc_len datalength i buf w
        = (Ok (<[i := framed (gen w (rng_next w)) trunc_len (len / fs) row]>
                 buf), w')
    ∧ gen w' = gen w ∧ stdout w' = stdout w
    ∧ rng_next w' =
        if decide (len / fs > trunc_len) then S (rng_next w) else rng_next w.
Proof.
  intros Hrow Hlen Hfs Ht Hn1 Hn2 Hr0 Hr1.
  pose proof (length_framed _ trunc_len (len / fs) row Hr0 Hr1 Ht Hn1 Hn2)
    as Hfr.
  unfold _front_end_row, py_index, py_floordiv.
  rewrite Hlen, bind_lift_Ok, decide_False, bind_lift_Ok by done.
  rewrite Hrow, bind_lift_Ok. unfold framed in *.
  destruct (decide (len / fs > trunc_len)) as [Hgt|Hle].
  - eexists. split.
    { unfold mbind at 1, M_bind at 1, torch_rand at 1.
      rewrite broadcast_to_same by done. by rewrite bind_lift_Ok. }
    done.
  - exists w. split; [|done].
    unfold np_ceil_div. rewrite decide_False by lia.
    rewrite bind_lift_Ok. unfold torch_repeat.
    destruct (ceil_covers trunc_len (len / fs) Hn1 Ht) as [(?&?&?)|[? Hrep]].
    + rewrite decide_False by lia.
      rewrite bind_lift_Ok, broadcast_to_same by done.
      by rewrite bind_lift_Ok.
    + rewrite decide_False by lia.
      rewrite bind_lift_Ok, broadcast_to_same by done.
      by rewrite bind_lift_Ok.
Qed.

(** C10.  In the random-crop branch, for every draw [r] of [[0, 1)] the
    start [floor (r * d)], [d = true_frame_num - trunc_len], is at most
    [d - 1]: the offset [d] is never selected.  The window written for the
    row ends before the last extracted frame: it is the same window of the
    feature map with its last frame removed. *)
Theorem crop_never_maximal x_sp_amp (fs trunc_len : Z) datalength i buf w
    row len :
  x_sp_amp !! i = Some row → datalength !! i = Some len →
  fs ≠ 0 → 0 ≤ trunc_len →
  len / fs > trunc_len → len / fs ≤ Z.of_nat (length row) →
  (0 ≤ gen w (rng_next w))%Qc → (gen w (rng_next w) < 1)%Qc →
  let d := len / fs - trunc_len in
  let pos := crop_pos (gen w (rng_next w)) d in
  0 ≤ pos ∧ pos ≤ d - 1 ∧ pos ≠ d
  ∧ _front_end_row x_sp_amp fs trunc_len datalength i buf w
    = (Ok (<[i := py_slice pos (trunc_len + pos) row]> buf),
       World (gen w) (S (rng_next w)) (stdout w))
  ∧ py_slice pos (trunc_len + pos) row
    = py_slice pos (trunc_len + pos) (take (length row - 1) row)
  ∧ (Z.to_nat (trunc_len + pos) ≤ length row - 1)%nat.
Proof.
  intros Hrow Hlen Hfs Ht Hgt Hn2 Hr0 Hr1 d pos.
  pose proof (crop_pos_range (gen w (rng_next w)) d Hr0 Hr1
                ltac:(unfold d; lia)) as Hpos.
  fold pos in Hpos. split_and!; try lia.
  - destruct (_front_end_row_ready x_sp_amp fs trunc_len datalength i buf w
                row len Hrow Hlen Hfs Ht ltac:(lia) Hn2 Hr0 Hr1)
      as (w' & Hstep & Hgen & Hout & Hrng).
    rewrite Hstep. unfold framed. rewrite decide_True in Hrng by done.
    rewrite decide_True by done.
    fold d pos. f_equal. destruct w'. cbn in *. by subst.
  - unfold d in *. rewrite !py_slice_inside; [|lia..| |lia|lia|lia].
    2:{ rewrite length_take. lia. }
    apply list_eq. intros j. rewrite !lookup_take, !lookup_drop, lookup_take.
    destruct (decide (j < Z.to_nat (trunc_len + pos - pos))%nat); [|done].
    rewrite decide_True; [done|lia].
Qed.

Lemma _front_end_row_zero x_sp_amp (fs trunc_len : Z) datalength i row len
    buf w :
  x_sp_amp !! i = Some row → datalength !! i = Some len →
  fs ≠ 0 → 0 ≤ trunc_len → len / fs = 0 →
  _front_end_row x_sp_amp fs trunc_len datalength i buf w
  = (Err ZeroDivisionError, w).
Proof.
  intros Hrow Hlen Hfs Ht Hzero.
  unfold _front_end_row, py_index, py_floordiv.
  rewrite Hlen, bind_lift_Ok, decide_False, bind_lift_Ok by done.
  rewrite Hrow, bind_lift_Ok, Hzero. rewrite decide_False by lia.
  unfold np_ceil_div. by rewrite decide_True.
Qed.

End FramingFacts.

Section PipelineFacts.
Context {wave frame emb aux : Type}.
Variable frame_zero : frame.
Variable emb_zero : emb.
Variable parse_filename : string → string.
Variable parse_length : string → Z.
Implicit Types self : @Model wave frame emb aux.
Implicit Types wav x : list wave.
Implicit Types fe : @frontend wave frame.

(** Under [rows_ready], [_front_end] returns, and every row of its result
    is the framing of the extracted row, cropped rows by a draw of the
    generator. *)
Lemma _front_end_total self wav idx (trunc_len : Z) datalength fe fs w :
  m_frontend self !! idx = Some fe → frame_hops self !! idx = Some fs →
  fs ≠ 0 → 0 ≤ trunc_len → rows_ready (fe wav) fs datalength →
  unit_draws w →
  ∃ buf w',
    _front_end frame_zero self wav idx trunc_len datalength w = (Ok buf, w')
    ∧ length buf = length (fe wav)
    ∧ gen w' = gen w ∧ stdout w' = stdout w
    ∧ ∀ i row len, fe wav !! i = Some row → datalength !! i = Some len →
        ∃ n, buf !! i = Some (framed (gen w n) trunc_len (len / fs) row).
Proof.
  intros Hfe Hfs Hnz Ht Hready Hdraws.
  unfold _front_end, py_index, torch_zeros.
  rewrite Hfe, bind_lift_Ok, decide_False, bind_lift_Ok by lia.
  rewrite Hfs, bind_lift_Ok.
  set (x_sp_amp := fe wav) in *.
  set (buf0 := replicate _ _).
  destruct (foldM_invariant
    (_front_end_row x_sp_amp fs trunc_len datalength)
    (λ k buf w',
       length buf = length x_sp_amp ∧ gen w' = gen w ∧ stdout w' = stdout w
       ∧ ∀ i row len, (i < k)%nat → x_sp_amp !! i = Some row →
           datalength !! i = Some len →
           ∃ n, buf !! i = Some (framed (gen w n) trunc_len (len / fs) row))
    (range (length x_sp_amp)) buf0 w) as (buf & w' & Hrun & Hinv).
  - split_and!; [apply length_replicate|done..|]. intros; lia.
  - intros i a buf w1 Hi (Hlen & Hgen & Hout & Hrows).
    apply lookup_seq in Hi as [-> Hi]. cbn in Hi |- *.
    destruct (proj2 (lookup_lt_is_Some x_sp_amp i) Hi) as [row Hrow].
    destruct (Hready i row Hrow) as (len & Hdl & Hn1 & Hn2).
    destruct (Hdraws (rng_next w1)) as [Hr0 Hr1]. rewrite <- Hgen in Hr0, Hr1.
    destruct (_front_end_row_ready x_sp_amp fs trunc_len datalength i buf w1
                row len Hrow Hdl Hnz Ht Hn1 Hn2 Hr0 Hr1)
      as (w2 & Hstep & Hgen2 & Hout2 & _).
    eexists _, w2. split; [exact Hstep|].
    split_and!; [by rewrite length_insert|congruence..|].
    intros j row' len' Hj Hrow' Hdl'.
    destruct (decide (j = i)) as [->|Hne].
    + simplify_eq. exists (rng_next w1).
      rewrite list_lookup_insert_eq by lia. by rewrite Hgen.
    + rewrite list_lookup_insert_ne by done.
      apply (Hrows j row' len'); [lia|done..].
  - exists buf, w'. unfold range in Hinv. rewrite length_seq in Hinv.
    destruct Hinv as (Hlen & Hgen & Hout & Hrows).
    split_and!; [done..|].
    intros i row len Hrow Hdl. apply (Hrows i row len); [|done..].
    by eapply lookup_lt_Some.
Qed.


(** C4.  When the row has between one and [trunc_len] true frames,
    [_front_end] returns and the row of its result has exactly [trunc_len]
    frames, starts with the [true_frame_num] extracted frames, and has
    frame [j mod true_frame_num] of the extraction at every position [j]. *)
Theorem short_row_is_tiled self wav idx (trunc_len : Z) datalength fe fs w
    i row len :
  m_frontend self !! idx = Some fe → frame_hops self !! idx = Some fs →
  fs ≠ 0 → 0 ≤ trunc_len → rows_ready (fe wav) fs datalength →
  unit_draws w →
  fe wav !! i = Some row → datalength !! i = Some len →
  0 < len / fs → len / fs ≤ trunc_len →
  let n := Z.to_nat (len / fs) in
  ∃ buf w' out,
    _front_end frame_zero self wav idx trunc_len datalength w = (Ok buf, w')
    ∧ buf !! i = Some out
    ∧ length out = Z.to_nat trunc_len
    ∧ take n out = take n row
    ∧ ∀ j, (j < Z.to_nat trunc_len)%nat → out !! j = row !! (j mod n)%nat.
Proof.
  intros Hfe Hfs Hnz Ht Hready Hdraws Hrow Hlen Hpos Hle n.
  destruct (Hready i row Hrow) as (len' & Hlen' & Hn1 & Hn2).
  assert (len' = len) as -> by congruence.
  destruct (_front_end_total self wav idx trunc_len datalength fe fs w)
    as (buf & w' & Hrun & _ & _ & _ & Hrows); try done.
  destruct (Hrows i row len Hrow Hlen) as [k Hk].
  destruct (Hdraws k) as [Hr0 Hr1].
  pose proof (length_framed (gen w k) trunc_len (len / fs) row
                Hr0 Hr1 Ht Hn1 Hn2) as Hlenf.
  set (out := framed (gen w k) trunc_len (len / fs) row) in *.
  assert (∀ j, (j < Z.to_nat trunc_len)%nat → out !! j = row !! (j mod n)%nat)
    as Hperiodic.
  { intros j Hj. unfold out, framed. rewrite decide_False by lia.
    assert (length (py_slice 0 (len / fs) row) = n) as Hsl.
    { rewrite length_py_slice_inside by lia. unfold n. f_equal. lia. }
    assert (trunc_len ≤ - (- trunc_len / (len / fs)) * (len / fs)
            ∧ 0 ≤ - (- trunc_len / (len / fs))) as [Hcov Hrep].
    { destruct (ceil_covers trunc_len (len / fs) Hn1 Ht) as [?|[-> ->]]; lia. }
    rewrite lookup_py_slice_inside; [|lia..| |lia].
    2:{ rewrite length_tile, Hsl. unfold n. nia. }
    cbn [Z.to_nat Nat.add]. rewrite lookup_tile; [|lia|].
    2:{ rewrite Hsl. unfold n. nia. }
    rewrite Hsl. rewrite lookup_py_slice_inside; [done|lia..|].
    rewrite Z.sub_0_r. fold n. apply Nat.mod_upper_bound. unfold n. lia. }
  exists buf, w', out. split_and!; try done.
  apply list_eq. intros j. rewrite !lookup_take.
  destruct (decide (j < n)%nat) as [Hj|Hj]; [|done].
  rewrite Hperiodic by (unfold n in *; lia).
  by rewrite Nat.mod_small.
Qed.

(** C8.  A row without true frames ([length // fs = 0]) makes the loop body
    of [_front_end] raise [ZeroDivisionError] in its tiling branch, in every
    state, and [_front_end] on a batch with such a row does not return.
    Nothing rejects the row before the division: when the rows before it
    are framed, the error of [_front_end] is that [ZeroDivisionError]. *)
Theorem zero_frames_divide_by_zero self wav idx (trunc_len : Z) datalength
    fe fs w i row len :
  m_frontend self !! idx = Some fe → frame_hops self !! idx = Some fs →
  fs ≠ 0 → 0 ≤ trunc_len →
  fe wav !! i = Some row → datalength !! i = Some len → len / fs = 0 →
  (∀ buf w1, _front_end_row (fe wav) fs trunc_len datalength i buf w1
             = (Err ZeroDivisionError, w1))
  ∧ (∃ e w',
       _front_end frame_zero self wav idx trunc_len datalength w = (Err e, w'))
  ∧ (unit_draws w → rows_ready (take i (fe wav)) fs datalength →
     ∃ w',
       _front_end frame_zero self wav idx trunc_len datalength w
       = (Err ZeroDivisionError, w')).
Proof.
  intros Hfe Hfs Hnz Ht Hrow Hlen Hzero.
  pose proof (λ buf w1, _front_end_row_zero (fe wav) fs trunc_len datalength
                          i row len buf w1 Hrow Hlen Hnz Ht Hzero) as Hbody.
  assert (range (length (fe wav)) !! i = Some i) as Hi.
  { apply lookup_seq. split; [done|]. by eapply lookup_lt_Some. }
  split_and!; [done| |].
  - unfold _front_end, py_index, torch_zeros.
    rewrite Hfe, bind_lift_Ok, decide_False, bind_lift_Ok by lia.
    rewrite Hfs, bind_lift_Ok.
    apply (foldM_fails _ _ i i); [done|].
    intros s w1. exists ZeroDivisionError, w1. apply Hbody.
  - intros Hdraws Hready.
    unfold _front_end, py_index, torch_zeros.
    rewrite Hfe, bind_lift_Ok, decide_False, bind_lift_Ok by lia.
    rewrite Hfs, bind_lift_Ok.
    apply (foldM_fails_at _ (λ _ _ w1, gen w1 = gen w) _ i i); [done..| |].
    + intros j b buf w1 Hj Hb Hgen. apply lookup_seq in Hb as [-> Hb].
      cbn in Hb |- *.
      destruct (proj2 (lookup_lt_is_Some (fe wav) j) Hb) as [rowj Hrowj].
      destruct (Hready j rowj) as (lenj & Hdl & Hn1 & Hn2).
      { rewrite lookup_take, decide_True by done. done. }
      destruct (Hdraws (rng_next w1)) as [Hr0 Hr1].
      rewrite <- Hgen in Hr0, Hr1.
      destruct (_front_end_row_ready (fe wav) fs trunc_len datalength j buf
                  w1 rowj lenj Hrowj Hdl Hnz Ht Hn1 Hn2 Hr0 Hr1)
        as (w2 & Hstep & Hgen2 & _).
      eexists _, w2. split; [exact Hstep|congruence].
    + intros buf w1 _. exists w1. apply Hbody.
Qed.

End PipelineFacts.

(** ** Stacked buffers *)

Lemma lookup_enumerate {A} (l : list A) (i k : nat) (a : A) :
  enumerate l !! i = Some (k, a) ↔ k = i ∧ l !! i = Some a.
Proof.
  unfold enumerate. rewrite lookup_zip_with_Some. split.
  - intros (k' & a' & [= -> ->] & Hk & Ha). by apply lookup_seq in Hk as [-> _].
  - intros [-> Ha]. exists i, a. split_and!; [done| |done].
    apply lookup_seq. split; [done|]. by eapply lookup_lt_Some.
Qed.

Lemma length_enumerate {A} (l : list A) : length (enumerate l) = length l.
Proof. unfold enumerate. rewrite length_zip_with, length_seq. lia. Qed.

Lemma assign_slice_rows {A} (s e : Z) (src buf : list A) :
  0 ≤ s → s ≤ e → e ≤ Z.of_nat (length buf) →
  length src = Z.to_nat (e - s) →
  assign_slice s e src buf
  = Ok (take (Z.to_nat s) buf ++ src ++ drop (Z.to_nat e) buf).
Proof.
  intros Hs Hse He Hsrc. unfold assign_slice, slice_bound.
  rewrite !decide_False by lia.
  rewrite broadcast_to_same by lia. cbn.
  do 2 f_equal; [f_equal; lia|]. do 2 f_equal. lia.
Qed.

Lemma length_assigned {A} (s e : nat) (src buf : list A) :
  (s ≤ e)%nat → (e ≤ length buf)%nat → length src = (e - s)%nat →
  length (take s buf ++ src ++ drop e buf) = length buf.
Proof.
  intros. rewrite !length_app, length_take, length_drop. lia.
Qed.

Lemma lookup_assigned {A} (s e : nat) (src buf : list A) (p : nat) :
  (s ≤ e)%nat → (e ≤ length buf)%nat → length src = (e - s)%nat →
  (take s buf ++ src ++ drop e buf) !! p
  = if decide (s ≤ p < e)%nat then src !! (p - s)%nat else buf !! p.
Proof.
  intros Hse He Hsrc.
  destruct (decide (p < s)%nat) as [Hlt|Hge].
  - rewrite lookup_app_l by (rewrite length_take; lia).
    rewrite lookup_take, decide_True by done.
    by rewrite decide_False by lia.
  - rewrite lookup_app_r by (rewrite length_take; lia).
    rewrite length_take, Nat.min_l by lia.
    destruct (decide (p < e)%nat) as [Hlt|Hge'].
    + rewrite lookup_app_l by lia. by rewrite decide_True by lia.
    + rewrite lookup_app_r by lia. rewrite lookup_drop, decide_False by lia.
      f_equal. lia.
Qed.

Lemma lookup_member_rows {A} (B idx j : nat) (buf : list A) :
  (j < B)%nat → member_rows B idx buf !! j = buf !! (idx * B + j)%nat.
Proof.
  intros Hj. unfold member_rows.
  rewrite lookup_take, decide_True by done. apply lookup_drop.
Qed.

Lemma py_slice_member_rows {A} (B idx : nat) (buf : list A) :
  ((idx + 1) * B ≤ length buf)%nat →
  py_slice (Z.of_nat idx * Z.of_nat B) (Z.of_nat idx * Z.of_nat B + Z.of_nat B)
           buf
  = member_rows B idx buf.
Proof.
  intros Hlen. rewrite py_slice_inside by nia. unfold member_rows.
  f_equal; [lia|]. f_equal. lia.
Qed.

Lemma assign_member {A} (B N k : nat) (s e : Z) (src out : list A) :
  (k < N)%nat → length out = (B * N)%nat → length src = B →
  s = Z.of_nat k * Z.of_nat B → e = s + Z.of_nat B →
  ∃ out', assign_slice s e src out = Ok out'
    ∧ length out' = length out
    ∧ member_rows B k out' = src
    ∧ ∀ idx, idx ≠ k → member_rows B idx out' = member_rows B idx out.
Proof.
  intros Hk Hout Hsrc -> ->.
  assert ((k + 1) * B ≤ B * N)%nat as Hfit by nia.
  eexists. split.
  { apply assign_slice_rows; [lia|lia|rewrite Hout; nia|].
    rewrite Hsrc. lia. }
  replace (Z.to_nat (Z.of_nat k * Z.of_nat B)) with (k * B)%nat by lia.
  replace (Z.to_nat (Z.of_nat k * Z.of_nat B + Z.of_nat B))
    with ((k + 1) * B)%nat by lia.
  split_and!.
  - apply length_assigned; lia.
  - apply list_eq. intros j. unfold member_rows.
    rewrite lookup_take, lookup_drop.
    destruct (decide (j < B)%nat) as [Hj|Hj].
    + rewrite lookup_assigned, decide_True by lia. f_equal. lia.
    + symmetry. apply lookup_ge_None_2. lia.
  - intros idx Hne. apply list_eq. intros j. unfold member_rows.
    rewrite !lookup_take, !lookup_drop.
    destruct (decide (j < B)%nat) as [Hj|Hj]; [|done].
    rewrite lookup_assigned by lia. rewrite decide_False; [done|].
    destruct (decide (idx < k)%nat).
    + pose proof (Nat.mul_le_mono_r (idx + 1) k B ltac:(lia)). lia.
    + pose proof (Nat.mul_le_mono_r (k + 1) idx B ltac:(lia)). lia.
Qed.

(** ** The ensemble *)

Section EnsembleFacts.
Context {wave frame emb aux : Type}.
Variable frame_zero : frame.
Variable emb_zero : emb.
Implicit Types self : @Model wave frame emb aux.
Implicit Types x : list wave.

Lemma _compute_embedding_total self x datalength w :
  well_formed self → row_preserving self → batch_ready self x datalength →
  unit_draws w →
  let B := length x in
  let N := v_submodels self in
  ∃ out w',
    _compute_embedding frame_zero emb_zero self x datalength w = (Ok out, w')
    ∧ length out = (B * N)%nat ∧ gen w' = gen w ∧ stdout w' = stdout w
    ∧ ∀ idx, (idx < N)%nat →
        ∃ fm trunc_len w1 buf w2,
          m_model self !! idx = Some fm
          ∧ v_truncate_lens self !! idx = Some trunc_len
          ∧ gen w1 = gen w
          ∧ _front_end frame_zero self x idx trunc_len datalength w1
            = (Ok buf, w2)
          ∧ length buf = B
          ∧ member_rows B idx out = (fm buf).1.
Proof.
  intros Hwf Hrp Hready Hdraws B N.
  destruct Hwf as (Hhops & Hlens & Hfft & Htrunc & Hmodel & Hfront & Hsoft).
  destruct Hrp as (Hfe_rows & Hfm_rows & _).
  fold N in Hhops, Hlens, Hfft, Htrunc, Hmodel, Hfront, Hsoft.
  unfold _compute_embedding, torch_zeros.
  rewrite decide_False, bind_lift_Ok by lia.
  set (its := enumerate _).
  assert (length its = N) as Hits.
  { unfold its. rewrite length_enumerate, !length_zip_with. lia. }
  set (out0 := replicate _ emb_zero).
  destruct (foldM_invariant
    (_compute_embedding_step frame_zero self x datalength (Z.of_nat B))
    (λ k out w',
       length out = (B * N)%nat ∧ gen w' = gen w ∧ stdout w' = stdout w
       ∧ ∀ idx, (idx < k)%nat →
           ∃ fm trunc_len w1 buf w2,
             m_model self !! idx = Some fm
             ∧ v_truncate_lens self !! idx = Some trunc_len
             ∧ gen w1 = gen w
             ∧ _front_end frame_zero self x idx trunc_len datalength w1
               = (Ok buf, w2)
             ∧ length buf = B
             ∧ member_rows B idx out = (fm buf).1)
    its out0 w) as (out & w' & Hrun & Hinv).
  - split_and!; [|done..|intros; lia].
    unfold out0. rewrite length_replicate. fold B N. lia.
  - intros k [k' ((((fs & fl) & fn) & trunc_len) & fm)] out w1 Hk
      (Hout & Hgen & Hstd & Hdone).
    apply lookup_enumerate in Hk as [-> Hk].
    apply lookup_zip_with_Some in Hk as (? & ? & [= <- <-] & Hk & Hfm).
    apply lookup_zip_with_Some in Hk as (? & ? & [= <- <-] & Hk & Htr).
    apply lookup_zip_with_Some in Hk as (? & ? & [= <- <-] & Hk & _).
    apply lookup_zip_with_Some in Hk as (? & ? & [= <- <-] & Hfs & _).
    assert (k < N)%nat as HkN. { rewrite <- Hmodel. by eapply lookup_lt_Some. }
    destruct (proj2 (lookup_lt_is_Some (m_frontend self) k) ltac:(lia))
      as [fe Hfe].
    destruct (Hready k fe fs trunc_len Hfe Hfs Htr) as (Hnz & Ht & Hrows).
    assert (unit_draws w1) as Hdraws1. { intros n. rewrite Hgen. apply Hdraws. }
    destruct (_front_end_total frame_zero self x k trunc_len datalength fe fs
                w1 Hfe Hfs Hnz Ht Hrows Hdraws1)
      as (buf & w2 & Hfront_end & Hbuf & Hgen2 & Hstd2 & _).
    assert (length buf = B) as HbufB.
    { rewrite Hbuf. apply Hfe_rows. by eapply list_elem_of_lookup_2. }
    assert (length (fm buf).1 = B) as Hfeat.
    { rewrite <- HbufB. apply Hfm_rows. by eapply list_elem_of_lookup_2. }
    destruct (assign_member B N k (Z.of_nat k * Z.of_nat B)
                ((Z.of_nat k + 1) * Z.of_nat B) (fm buf).1 out)
      as (out' & Hassign & Hlen' & Hsame & Hother); [done..|lia|].
    exists out', w2. split.
    { unfold _compute_embedding_step.
      rewrite (bind_Ok _ _ _ _ _ Hfront_end).
      destruct (fm buf) as [features final_output]. cbn in Hassign |- *.
      unfold lift. by rewrite Hassign. }
    split_and!; [congruence..|].
    intros idx Hidx. destruct (decide (idx = k)) as [->|Hne].
    + exists fm, trunc_len, w1, buf, w2. by rewrite Hsame.
    + destruct (Hdone idx ltac:(lia))
        as (fm' & tr' & wa & buf' & wb & ? & ? & ? & ? & ? & Hrows').
      exists fm', tr', wa, buf', wb. rewrite Hother by done. done.
  - exists out, w'. rewrite Hits in Hinv.
    destruct Hinv as (? & ? & ? & Hdone). done.
Qed.

Lemma _compute_score_total self (feature_vec : list emb) (angle : bool) w
    (B : nat) :
  well_formed self → row_preserving self → (0 < v_submodels self)%nat →
  length feature_vec = (B * v_submodels self)%nat →
  ∃ cos phi,
    _compute_score self feature_vec angle w = (Ok (cos, phi), w)
    ∧ length cos = (B * v_submodels self)%nat
    ∧ length phi = (B * v_submodels self)%nat
    ∧ ∀ idx, (idx < v_submodels self)%nat →
        ∃ layer, m_a_softmax self !! idx = Some layer
          ∧ member_rows B idx cos
            = (layer (member_rows B idx feature_vec) angle).1
          ∧ member_rows B idx phi
            = (layer (member_rows B idx feature_vec) angle).2.
Proof.
  intros Hwf Hrp HN Hfv. set (N := v_submodels self) in *.
  destruct Hwf as (_ & _ & _ & _ & _ & _ & Hsoft).
  destruct Hrp as (_ & _ & Hlayer_rows). fold N in Hsoft.
  unfold _compute_score, py_floordiv. fold N.
  rewrite decide_False, bind_lift_Ok by lia.
  replace (Z.of_nat (length feature_vec) / Z.of_nat N) with (Z.of_nat B).
  2:{ rewrite Hfv, Nat2Z.inj_mul, Z.div_mul; lia. }
  destruct (foldM_invariant
    (_compute_score_step self feature_vec angle (Z.of_nat B))
    (λ k acc w',
       w' = w ∧ length acc.1 = (B * N)%nat ∧ length acc.2 = (B * N)%nat
       ∧ ∀ idx, (idx < k)%nat →
           ∃ layer, m_a_softmax self !! idx = Some layer
             ∧ member_rows B idx acc.1
               = (layer (member_rows B idx feature_vec) angle).1
             ∧ member_rows B idx acc.2
               = (layer (member_rows B idx feature_vec) angle).2)
    (range N)
    (replicate (length feature_vec) tzero, replicate (length feature_vec) tzero)
    w) as ([cos phi] & w' & Hrun & Hinv).
  - cbn. rewrite !length_replicate. split_and!; [done..|intros; lia].
  - intros k k' [cos phi] w1 Hk (-> & Hcos & Hphi & Hdone).
    apply lookup_seq in Hk as [-> Hk]. cbn in Hk, Hcos, Hphi |- *.
    destruct (proj2 (lookup_lt_is_Some (m_a_softmax self) k) ltac:(lia))
      as [layer Hlayer].
    assert ((k + 1) * B ≤ length feature_vec)%nat as Hfit.
    { rewrite Hfv. pose proof (Nat.mul_le_mono_r (k + 1) N B ltac:(lia)). lia. }
    pose proof (py_slice_member_rows B k feature_vec Hfit) as Hslice.
    destruct (Hlayer_rows layer (list_elem_of_lookup_2 _ _ _ Hlayer)
                (member_rows B k feature_vec) angle) as [Hl1 Hl2].
    assert (length (member_rows B k feature_vec) = B) as Hmr.
    { unfold member_rows. rewrite length_take, length_drop. lia. }
    destruct (assign_member B N k (Z.of_nat k * Z.of_nat B)
                (Z.of_nat k * Z.of_nat B + Z.of_nat B)
                (layer (member_rows B k feature_vec) angle).1 cos)
      as (cos' & Hassign1 & Hlen1 & Hsame1 & Hother1); [done..|lia|done|done|].
    destruct (assign_member B N k (Z.of_nat k * Z.of_nat B)
                (Z.of_nat k * Z.of_nat B + Z.of_nat B)
                (layer (member_rows B k feature_vec) angle).2 phi)
      as (phi' & Hassign2 & Hlen2 & Hsame2 & Hother2); [done..|lia|done|done|].
    exists (cos', phi'), w. split.
    { unfold _compute_score_step, py_index.
      rewrite Hlayer, bind_lift_Ok, Hslice.
      destruct (layer _ angle) as [tmp1 tmp2]. cbn in Hassign1, Hassign2 |- *.
      by rewrite Hassign1, bind_lift_Ok, Hassign2, bind_lift_Ok. }
    cbn. split_and!; [done|congruence..|].
    intros idx Hidx. destruct (decide (idx = k)) as [->|Hne].
    + exists layer. by rewrite Hsame1, Hsame2.
    + destruct (Hdone idx ltac:(lia)) as (layer' & ? & ? & ?).
      exists layer'. rewrite Hother1, Hother2 by done. done.
  - exists cos, phi. unfold range in Hinv. rewrite length_seq in Hinv.
    destruct Hinv as (-> & ? & ? & ?). done.
Qed.

End EnsembleFacts.

(** ** The forward pass *)

Lemma targets_exist (tbl : gmap string Z) (filenames : list string) :
  (∀ f, f ∈ filenames → is_Some (tbl !! f)) →
  ∃ target, Forall2 (λ f l, tbl !! f = Some l) filenames target.
Proof.
  induction filenames as [|f fs IH]; intros Hall; [by exists []|].
  destruct IH as [t Ht]. { intros ??. apply Hall. by right. }
  destruct (Hall f) as [l Hl]; [by left|]. exists (l :: t). by constructor.
Qed.

Lemma member_rows_tile {A} (B N idx : nat) (target : list A) :
  length target = B → (idx < N)%nat →
  member_rows B idx (mjoin (replicate N target)) = target.
Proof.
  intros HB Hidx. apply list_eq. intros j. unfold member_rows.
  rewrite lookup_take, lookup_drop.
  destruct (decide (j < B)%nat) as [Hj|Hj].
  - rewrite lookup_tile, HB; [|lia|].
    + f_equal. rewrite Nat.add_comm, Nat.Div0.mod_add. by apply Nat.mod_small.
    + rewrite HB. pose proof (Nat.mul_le_mono_r (idx + 1) N B ltac:(lia)). lia.
  - symmetry. apply lookup_ge_None_2. lia.
Qed.

Lemma tsum_finite (a : Qc) (qs : list Qc) :
  foldl tadd (Fin a) (Fin <$> qs) = Fin (a + Qc_sum qs)%Qc.
Proof.
  revert a. induction qs as [|q qs IH]; intros a.
  - change (Fin a = Fin (a + 0)%Qc). f_equal. ring.
  - change (foldl tadd (Fin (a + q)%Qc) (Fin <$> qs)
            = Fin (a + (q + Qc_sum qs))%Qc).
    rewrite IH. f_equal. ring.
Qed.

Lemma tmean_finite (qs : list Qc) :
  qs ≠ [] →
  tmean (Fin <$> qs) = Fin (Qc_sum qs / Qc_of_Z (Z.of_nat (length qs)))%Qc.
Proof.
  intros Hne. unfold tmean, tsum, tzero. rewrite tsum_finite, length_fmap.
  rewrite tdiv_finite.
  - by rewrite Qcplus_0_l.
  - rewrite <- Z2Qc_inj_0. intros Heq. apply Z2Qc_inj in Heq.
    destruct qs; [done|]. cbn in Heq. lia.
Qed.

Section ForwardFacts.
Context {wave frame emb aux : Type}.
Variable frame_zero : frame.
Variable emb_zero : emb.
Variable parse_filename : string → string.
Variable parse_length : string → Z.
Implicit Types self : @Model wave frame emb aux.
Implicit Types x : list wave.

(** C5.  With [B] rows in the batch and [N] members, [_compute_embedding]
    returns a buffer of exactly [B * N] rows in which the rows
    [[idx * B, (idx + 1) * B)] are the [B] embedding rows that the backbone
    of member [idx] computed from that member's framed features; and for
    [N] at least 1 [_compute_score] returns cosine and margin buffers of
    [B * N] rows whose rows [[idx * B, (idx + 1) * B)] come from the angle
    layer of member [idx] applied to the same rows of the embeddings. *)
Theorem stacked_row_layout self x datalength w :
  well_formed self → row_preserving self → batch_ready self x datalength →
  unit_draws w →
  let B := length x in
  let N := v_submodels self in
  ∃ feature_vec w',
    _compute_embedding frame_zero emb_zero self x datalength w
    = (Ok feature_vec, w')
    ∧ length feature_vec = (B * N)%nat
    ∧ (∀ idx, (idx < N)%nat →
         ∃ fm trunc_len w1 buf w2,
           m_model self !! idx = Some fm
           ∧ v_truncate_lens self !! idx = Some trunc_len
           ∧ _front_end frame_zero self x idx trunc_len datalength w1
             = (Ok buf, w2)
           ∧ member_rows B idx feature_vec = (fm buf).1
           ∧ length (member_rows B idx feature_vec) = B
           ∧ ∀ j, (j < B)%nat →
               feature_vec !! (idx * B + j)%nat = (fm buf).1 !! j)
    ∧ ((0 < N)%nat → ∀ angle w1,
         ∃ cos phi,
           _compute_score self feature_vec angle w1 = (Ok (cos, phi), w1)
           ∧ length cos = (B * N)%nat ∧ length phi = (B * N)%nat
           ∧ ∀ idx, (idx < N)%nat →
               ∃ layer, m_a_softmax self !! idx = Some layer
                 ∧ member_rows B idx cos
                   = (layer (member_rows B idx feature_vec) angle).1
                 ∧ member_rows B idx phi
                   = (layer (member_rows B idx feature_vec) angle).2).
Proof.
  intros Hwf Hrp Hready Hdraws B N.
  destruct (_compute_embedding_total frame_zero emb_zero self x datalength w
              Hwf Hrp Hready Hdraws)
    as (fv & w' & Hrun & Hlen & _ & _ & Hrows).
  exists fv, w'. split_and!; [done..| |].
  - intros idx Hidx.
    destruct (Hrows idx Hidx)
      as (fm & tr & w1 & buf & w2 & Hfm & Htr & _ & Hfe & Hbuf & Hmr).
    exists fm, tr, w1, buf, w2. split_and!; [done..| |].
    + unfold member_rows. rewrite length_take, length_drop, Hlen.
      fold B N. pose proof (Nat.mul_le_mono_r (idx + 1) N B ltac:(lia)). lia.
    + intros j Hj. rewrite <- Hmr. symmetry. by apply lookup_member_rows.
  - intros HN angle w1.
    by apply (_compute_score_total self fv angle w1 B).
Qed.

(** C7.  In training mode [forward] returns, with the flag [True], a target
    vector of [B * N] entries that is the label vector of the batch repeated
    once per member: the entries [[idx * B, (idx + 1) * B)] are the labels
    of the [B] utterances in batch order, for every member [idx], the first
    included; the score buffers returned with it have [B * N] rows too. *)
Theorem training_targets_replicated self x (fileinfo : list string) w :
  training self = true →
  well_formed self → row_preserving self → (0 < v_submodels self)%nat →
  length fileinfo = length x →
  batch_ready self x (parse_length <$> fileinfo) →
  unit_draws w →
  (∀ info, info ∈ fileinfo →
     is_Some (protocol_parser self !! parse_filename info)) →
  let B := length x in
  let N := v_submodels self in
  ∃ a_softmax_act target_vec target w',
    forward frame_zero emb_zero parse_filename parse_length self x fileinfo w
    = (Ok (RetTrain a_softmax_act target_vec true), w')
    ∧ length target = B
    ∧ (∀ j info, fileinfo !! j = Some info →
         target !! j = protocol_parser self !! parse_filename info)
    ∧ length target_vec = (B * N)%nat
    ∧ (∀ idx, (idx < N)%nat → member_rows B idx target_vec = target)
    ∧ take B target_vec = target
    ∧ length a_softmax_act.1 = (B * N)%nat
    ∧ length a_softmax_act.2 = (B * N)%nat.
Proof.
  intros Htrain Hwf Hrp HN Hinfo Hready Hdraws Hfound B N.
  destruct (_compute_embedding_total frame_zero emb_zero self x
              (parse_length <$> fileinfo) w Hwf Hrp Hready Hdraws)
    as (fv & w' & Hemb & Hlen & _ & _ & _).
  destruct (_compute_score_total self fv false w' B Hwf Hrp HN Hlen)
    as (cos & phi & Hscore & Hcos & Hphi & _).
  destruct (targets_exist (protocol_parser self) (parse_filename <$> fileinfo))
    as [target Htarget].
  { intros f Hf. apply list_elem_of_fmap in Hf as (info & -> & Hin).
    by apply Hfound. }
  assert (length target = B) as HtB.
  { rewrite <- (Forall2_length _ _ _ Htarget), length_fmap. done. }
  exists (cos, phi), (mjoin (replicate N target)), target, w'.
  split_and!; try done.
  - unfold forward. rewrite Htrain.
    rewrite (bind_Ok _ _ _ _ _ Hemb), (bind_Ok _ _ _ _ _ Hscore).
    rewrite (bind_Ok _ _ _ _ _ (_get_target_found self _ target w' Htarget)).
    unfold torch_repeat. rewrite decide_False, bind_lift_Ok by lia.
    by rewrite Nat2Z.id.
  - intros j info Hj.
    destruct (Forall2_lookup_l _ _ _ j (parse_filename info) Htarget)
      as (l & -> & Hl); [|done].
    by rewrite list_lookup_fmap, Hj.
  - rewrite length_tile. lia.
  - intros idx Hidx. by apply member_rows_tile.
  - change (take B (mjoin (replicate N target)))
      with (take B (drop (0 * B) (mjoin (replicate N target)))).
    by apply (member_rows_tile B N 0).
Qed.

(** C2 (amended).  In inference mode [forward] returns [None] and prints
    exactly one line for the batch: the file name and the label of the
    first utterance, and the mean of all [B * N] cosine values of the batch,
    which for finite values is their sum divided by [B * N].  The cosine
    rows [[idx * B, (idx + 1) * B)] are those of member [idx], so with one
    utterance in the batch the score is the mean of its [N] per-member
    cosine values. *)
Theorem inference_prints_one_mean self x (fileinfo : list string) w info0 :
  training self = false →
  well_formed self → row_preserving self → (0 < v_submodels self)%nat →
  length fileinfo = length x →
  batch_ready self x (parse_length <$> fileinfo) →
  unit_draws w →
  (∀ info, info ∈ fileinfo →
     is_Some (protocol_parser self !! parse_filename info)) →
  fileinfo !! 0%nat = Some info0 →
  let B := length x in
  let N := v_submodels self in
  ∃ feature_vec cos phi w1 target0,
    _compute_embedding frame_zero emb_zero self x (parse_length <$> fileinfo) w
    = (Ok feature_vec, w1)
    ∧ _compute_score self feature_vec true w1 = (Ok (cos, phi), w1)
    ∧ length cos = (B * N)%nat
    ∧ (∀ idx, (idx < N)%nat →
         ∃ layer, m_a_softmax self !! idx = Some layer
           ∧ member_rows B idx cos
             = (layer (member_rows B idx feature_vec) true).1)
    ∧ protocol_parser self !! parse_filename info0 = Some target0
    ∧ forward frame_zero emb_zero parse_filename parse_length self x fileinfo w
      = (Ok RetNone,
         World (gen w1) (rng_next w1)
               (stdout w ++ [POutput (parse_filename info0) target0
                                     (tmean cos)]))
    ∧ (∀ qs, cos = Fin <$> qs →
         tmean cos = Fin (Qc_sum qs / Qc_of_Z (Z.of_nat (B * N)))%Qc).
Proof.
  intros Htrain Hwf Hrp HN Hinfo Hready Hdraws Hfound Hinfo0 B N.
  destruct (_compute_embedding_total frame_zero emb_zero self x
              (parse_length <$> fileinfo) w Hwf Hrp Hready Hdraws)
    as (fv & w1 & Hemb & Hlen & _ & Hstd & _).
  destruct (_compute_score_total self fv true w1 B Hwf Hrp HN Hlen)
    as (cos & phi & Hscore & Hcos & Hphi & Hrows).
  destruct (targets_exist (protocol_parser self) (parse_filename <$> fileinfo))
    as [target Htarget].
  { intros f Hf. apply list_elem_of_fmap in Hf as (info & -> & Hin).
    by apply Hfound. }
  assert ((parse_filename <$> fileinfo) !! 0%nat = Some (parse_filename info0))
    as Hname0 by (by rewrite list_lookup_fmap, Hinfo0).
  destruct (Forall2_lookup_l _ _ _ _ _ Htarget Hname0) as (target0 & Ht0 & Hl0).
  exists fv, cos, phi, w1, target0. split_and!; try done.
  - intros idx Hidx. destruct (Hrows idx Hidx) as (layer & ? & ? & _).
    by exists layer.
  - unfold forward. rewrite Htrain.
    rewrite (bind_Ok _ _ _ _ _ Hemb), (bind_Ok _ _ _ _ _ Hscore).
    rewrite (bind_Ok _ _ _ _ _ (_get_target_found self _ target w1 Htarget)).
    unfold py_index. rewrite Hname0, bind_lift_Ok, Ht0, bind_lift_Ok.
    unfold mbind, M_bind, print, mret, M_ret. by rewrite Hstd.
  - intros qs ->. rewrite length_fmap in Hcos.
    subst B N. rewrite <- Hcos.
    apply tmean_finite. intros ->. cbn in Hcos.
    assert (0 < length x)%nat.
    { rewrite <- Hinfo. by eapply lookup_lt_Some. }
    nia.
Qed.

End ForwardFacts.

(** ** Construction *)

Lemma bind_Ok_inv {A B} (m : M A) (f : A → M B) w b w' :
  (m ≫= f) w = (Ok b, w') →
  ∃ a w1, m w = (Ok a, w1) ∧ f a w1 = (Ok b, w').
Proof.
  unfold mbind, M_bind. destruct (m w) as [[a|e] w1]; [|done].
  intros Hf. by exists a, w1.
Qed.

Lemma mapM_result_length {A B} (f : A → result B) l k :
  mapM f l = Ok k → length k = length l.
Proof.
  revert k. induction l as [|a l IH]; intros k; cbn.
  - by intros [= <-].
  - destruct (f a) as [b|e]; cbn; [|done].
    destruct (mapM f l) as [k'|e]; cbn; [|done].
    intros [= <-]. cbn. f_equal. by apply IH.
Qed.

Section ConstructionFacts.
Context {wave frame emb aux : Type}.
Variable ResNet : nat → Z → @backbone frame emb aux.
Variable LFCC : Z → Z → Z → Z → Z → @frontend wave frame.
Variable OCAngleLayer : nat → Z → @anglelayer emb.

Lemma init_step_length hp (emd_dim : Z) it acc acc' :
  init_step ResNet LFCC OCAngleLayer hp emd_dim it acc = Ok acc' →
  length acc'.1.1 = S (length acc.1.1)
  ∧ length acc'.1.2 = S (length acc.1.2)
  ∧ length acc'.2 = S (length acc.2).
Proof.
  destruct it as [idx it], acc as [[models frontends] softmaxes].
  unfold init_step.
  destruct (py_index (hp_frame_lens hp) idx) as [fl|]; [|done].
  destruct (py_index (hp_frame_hops hp) idx) as [fs|]; [|done].
  destruct (py_index (hp_fft_n hp) idx) as [fn|]; [|done].
  destruct (py_index (hp_lfcc_dim hp) idx) as [dim|]; [|done].
  cbn. intros [= <-]. cbn. rewrite !length_app. cbn. lia.
Qed.

Lemma init_step_lengths hp (emd_dim : Z) its acc acc' :
  foldM (init_step ResNet LFCC OCAngleLayer hp emd_dim) its acc = Ok acc' →
  length acc'.1.1 = (length acc.1.1 + length its)%nat
  ∧ length acc'.1.2 = (length acc.1.2 + length its)%nat
  ∧ length acc'.2 = (length acc.2 + length its)%nat.
Proof.
  revert acc. induction its as [|it its IH]; intros acc.
  - intros [= <-]. cbn. lia.
  - cbn [foldM].
    destruct (init_step ResNet LFCC OCAngleLayer hp emd_dim it acc)
      as [acc1|e] eqn:Hstep; [|done].
    cbn. intros Hrest. apply IH in Hrest.
    apply init_step_length in Hstep. cbn. lia.
Qed.

(** A model that [__init__] returns from settings of equal lengths has all
    its per-member lists of the length [v_submodels], and is in training
    mode. *)
Lemma Model_init_well_formed hp (in_dim out_dim : Z) mean_std temp_buffer
    w self w' :
  Model_init ResNet LFCC OCAngleLayer hp in_dim out_dim mean_std temp_buffer w
  = (Ok self, w') →
  length (hp_frame_hops hp) = length (hp_frame_lens hp) →
  length (hp_fft_n hp) = length (hp_frame_lens hp) →
  length (hp_lfcc_dim hp) = length (hp_frame_lens hp) →
  well_formed self ∧ training self = true
  ∧ v_submodels self = length (hp_frame_lens hp).
Proof.
  unfold Model_init. intros Hinit Hhops Hfft Hdim.
  apply bind_Ok_inv in Hinit as ([[[in_m in_s] out_m] out_s] & w1 & _ & Hinit).
  apply bind_Ok_inv in Hinit as (parser & w2 & _ & Hinit).
  apply bind_Ok_inv in Hinit as (truncate_lens & w3 & Htrunc & Hinit).
  apply bind_Ok_inv in Hinit as ([[models frontends] softmaxes] & w4 & Hmods
                                 & Hinit).
  injection Hinit as <- _.
  unfold lift in Htrunc, Hmods.
  injection Htrunc as Htrunc _. injection Hmods as Hmods _.
  apply mapM_result_length in Htrunc.
  apply init_step_lengths in Hmods as (Hm & Hf & Hs).
  rewrite length_enumerate, !length_zip_with in Hm, Hf, Hs.
  cbn in Hm, Hf, Hs. unfold well_formed. cbn. split_and!; lia.
Qed.

Lemma Model_eval_well_formed (self : @Model wave frame emb aux) :
  well_formed self → well_formed (Model_eval self).
Proof. done. Qed.

End ConstructionFacts.

(** ** The model on the small instance *)

Lemma toy_rows_ready (fl fs fn sr dim : Z) (wav : list Z) :
  0 < fs → Forall (λ n, fs ≤ n) wav →
  rows_ready (Toy.LFCC fl fs fn sr dim wav) fs wav.
Proof.
  intros Hfs Hlong i row Hrow. unfold Toy.LFCC in Hrow.
  rewrite list_lookup_fmap in Hrow.
  destruct (wav !! i) as [n|] eqn:Hn; [|done].
  injection Hrow as <-. exists n. split; [done|].
  pose proof (Forall_lookup_1 _ _ _ _ Hlong Hn) as Hle. cbn in Hle.
  pose proof (Z.div_str_pos n fs ltac:(lia)).
  rewrite length_seqZ. lia.
Qed.


Lemma toy_unit_draws : unit_draws Toy.w0.
Proof. intros n. split; by_evaluation. Qed.

Lemma toy_well_formed (tr : bool) :
  well_formed (if tr then Toy.ensemble else Model_eval Toy.ensemble).
Proof. destruct tr; by split_and!. Qed.

Lemma toy_row_preserving (tr : bool) :
  row_preserving (if tr then Toy.ensemble else Model_eval Toy.ensemble).
Proof.
  assert (row_preserving Toy.ensemble) as Hrp.
  { split_and!.
    - intros fe Hfe x.
      change (m_frontend Toy.ensemble)
        with [Toy.LFCC 320 160 512 16000 20; Toy.LFCC 640 320 1024 16000 20]
        in Hfe.
      apply elem_of_cons in Hfe as [->|Hfe]; [apply length_fmap|].
      apply elem_of_cons in Hfe as [->|Hfe]; [apply length_fmap|].
      by apply elem_of_nil in Hfe.
    - intros fm Hfm x.
      change (m_model Toy.ensemble)
        with [Toy.ResNet 0 256; Toy.ResNet 1 256] in Hfm.
      apply elem_of_cons in Hfm as [->|Hfm]; [apply length_fmap|].
      apply elem_of_cons in Hfm as [->|Hfm]; [apply length_fmap|].
      by apply elem_of_nil in Hfm.
    - intros layer Hl e angle.
      change (m_a_softmax Toy.ensemble)
        with [Toy.OCAngleLayer 0 256; Toy.OCAngleLayer 1 256] in Hl.
      apply elem_of_cons in Hl as [->|Hl]; [split; apply length_fmap|].
      apply elem_of_cons in Hl as [->|Hl]; [split; apply length_fmap|].
      by apply elem_of_nil in Hl. }
  by destruct tr.
Qed.

Lemma toy_batch_ready (tr : bool) :
  batch_ready (if tr then Toy.ensemble else Model_eval Toy.ensemble)
              Toy.batch Toy.batch.
Proof.
  assert (batch_ready Toy.ensemble Toy.batch Toy.batch) as Hready.
  { intros idx fe fs trunc_len.
    change (m_frontend Toy.ensemble)
      with [Toy.LFCC 320 160 512 16000 20; Toy.LFCC 640 320 1024 16000 20].
    change (frame_hops Toy.ensemble) with [160; 320].
    change (v_truncate_lens Toy.ensemble) with [750; 375].
    intros Hfe Hfs Htr.
    destruct idx as [|[|idx]]; [| |done].
    - injection Hfe as <-. injection Hfs as <-. injection Htr as <-.
      split_and!; [done..|].
      apply toy_rows_ready; [done|]. repeat constructor; done.
    - injection Hfe as <-. injection Hfs as <-. injection Htr as <-.
      split_and!; [done..|].
      apply toy_rows_ready; [done|]. repeat constructor; done. }
  by destruct tr.
Qed.

Lemma prepare_mean_std_None (in_dim out_dim : Z) w :
  0 ≤ in_dim → 0 ≤ out_dim →
  prepare_mean_std in_dim out_dim None w
  = (Ok (replicate (Z.to_nat in_dim) tzero, replicate (Z.to_nat in_dim) tzero,
         replicate (Z.to_nat out_dim) tone, replicate (Z.to_nat out_dim) tone),
     w).
Proof.
  intros Hin Hout. unfold prepare_mean_std, torch_zeros, torch_ones.
  by rewrite !decide_False by lia.
Qed.

(** C1.  Without statistics the constructor stores zeros for both the input
    mean and the input deviation and ones for both the output mean and the
    output deviation, so the normalization is no pass-through:
    [normalize_input] divides by zero (1 becomes infinite),
    [normalize_target] subtracts one (2 becomes 1) and [denormalize_output]
    adds one (2 becomes 3). *)
Theorem no_statistics_is_not_pass_through :
  (Toy.init source_hparams None Toy.w0).1 = Ok Toy.single
  ∧ input_mean Toy.single = [Fin 0%Qc] ∧ input_std Toy.single = [Fin 0%Qc]
  ∧ output_mean Toy.single = [Fin 1%Qc] ∧ output_std Toy.single = [Fin 1%Qc]
  ∧ normalize_input Toy.single [[Fin 1%Qc]] = Ok [[PInf]]
  ∧ normalize_target Toy.single [[Fin 2%Qc]] = Ok [[Fin 1%Qc]]
  ∧ denormalize_output Toy.single [[Fin 2%Qc]] = Ok [[Fin (Qc_of_Z 3)]].
Proof. split_and!; [reflexivity|by_evaluation..]. Qed.

Lemma denormalize_normalize_target_witness :
  normalize_target Toy.scaled (fin_rows [[Qc_of_Z 5]; [Qc_of_Z 7]])
    ≫= denormalize_output Toy.scaled
  = Ok (fin_rows [[Qc_of_Z 5]; [Qc_of_Z 7]]).
Proof.
  apply (denormalize_normalize_target Toy.scaled _ [Qc_of_Z 3] [Qc_of_Z 2]).
  - reflexivity.
  - reflexivity.
  - reflexivity.
  - repeat constructor. apply (bool_decide_unpack _). vm_compute. exact I.
  - repeat constructor.
Defined.



Lemma short_row_is_tiled_witness :
  ∃ buf w' out,
    _front_end 0 Toy.ensemble Toy.batch 0 750 Toy.batch Toy.w0 = (Ok buf, w')
    ∧ buf !! 1%nat = Some out
    ∧ length out = 750%nat
    ∧ take 100 out = seqZ 0 100
    ∧ out !! 100%nat = Some 0 ∧ out !! 749%nat = Some 49.
Proof.
  destruct (short_row_is_tiled 0 Toy.ensemble Toy.batch 0 750 Toy.batch
              (Toy.LFCC 320 160 512 16000 20) 160 Toy.w0 1 (seqZ 0 101)
              16000)
    as (buf & w' & out & Hrun & Hbuf & Hlen & Hhead & Hper).
  - reflexivity.
  - reflexivity.
  - lia.
  - lia.
  - apply toy_rows_ready; [lia|]. repeat constructor; simpl; lia.
  - apply toy_unit_draws.
  - reflexivity.
  - reflexivity.
  - reflexivity.
  - discriminate.
  - exists buf, w', out.
    split_and!; [exact Hrun|exact Hbuf|exact Hlen|exact Hhead| |].
    + rewrite (Hper 100%nat) by (simpl; lia). reflexivity.
    + rewrite (Hper 749%nat) by (simpl; lia). reflexivity.
Defined.

Lemma zero_frames_divide_by_zero_witness :
  ∃ w', _front_end 0 Toy.ensemble [100] 0 750 [100] Toy.w0
        = (Err ZeroDivisionError, w').
Proof.
  destruct (zero_frames_divide_by_zero 0 Toy.ensemble [100] 0 750 [100]
              (Toy.LFCC 320 160 512 16000 20) 160 Toy.w0 0 (seqZ 0 1) 100)
    as (_ & _ & Hexact).
  - reflexivity.
  - reflexivity.
  - lia.
  - lia.
  - reflexivity.
  - reflexivity.
  - reflexivity.
  - apply Hexact; [apply toy_unit_draws|].
    intros i row Hrow. simpl in Hrow. discriminate Hrow.
Defined.

Lemma crop_never_maximal_witness :
  _front_end_row [seqZ 0 4] 160 2 [480] 0 [[]] Toy.w0
  = (Ok [[0; 1]], World (gen Toy.w0) 1 []).
Proof.
  destruct (crop_never_maximal [seqZ 0 4] 160 2 [480] 0 [[]] Toy.w0
              (seqZ 0 4) 480)
    as (_ & _ & _ & Hrun & _).
  - reflexivity.
  - reflexivity.
  - lia.
  - lia.
  - reflexivity.
  - by_evaluation.
  - by_evaluation.
  - by_evaluation.
  - exact Hrun.
Defined.

Lemma stacked_row_layout_witness :
  ∃ feature_vec w' cos phi,
    _compute_embedding 0 0%Qc Toy.ensemble Toy.batch Toy.batch Toy.w0
    = (Ok feature_vec, w')
    ∧ length feature_vec = 4%nat
    ∧ _compute_score Toy.ensemble feature_vec true w' = (Ok (cos, phi), w')
    ∧ length cos = 4%nat ∧ length phi = 4%nat
    ∧ member_rows 2 1 cos
      = (Toy.OCAngleLayer 1 256 (member_rows 2 1 feature_vec) true).1.
Proof.
  destruct (stacked_row_layout 0 0%Qc Toy.ensemble Toy.batch Toy.batch Toy.w0)
    as (fv & w' & Hrun & Hlen & _ & Hscore).
  - apply (toy_well_formed true).
  - apply (toy_row_preserving true).
  - apply (toy_batch_ready true).
  - apply toy_unit_draws.
  - destruct (Hscore ltac:(simpl; lia) true w')
      as (cos & phi & Hs & Hcos & Hphi & Hrows).
    destruct (Hrows 1%nat ltac:(simpl; lia)) as (layer & Hlayer & Hc & _).
    injection Hlayer as <-.
    exists fv, w', cos, phi.
    split_and!; [exact Hrun|exact Hlen|exact Hs|exact Hcos|exact Hphi|exact Hc].
Defined.

Lemma training_targets_replicated_witness :
  ∃ a_softmax_act w',
    Toy.fwd Toy.ensemble Toy.batch Toy.infos Toy.w0
    = (Ok (RetTrain a_softmax_act [1; 0; 1; 0] true), w').
Proof.
  destruct (training_targets_replicated 0 0%Qc Toy.parse_filename
              Toy.parse_length Toy.ensemble Toy.batch Toy.infos Toy.w0)
    as (act & tv & target & w' & Hrun & Hlen & Hlook & Hlentv & Hrows & _).
  - reflexivity.
  - apply (toy_well_formed true).
  - apply (toy_row_preserving true).
  - simpl. lia.
  - reflexivity.
  - apply (toy_batch_ready true).
  - apply toy_unit_draws.
  - intros info Hinfo.
    apply elem_of_cons in Hinfo as [->|Hinfo]; [by eexists|].
    apply elem_of_cons in Hinfo as [->|Hinfo]; [by eexists|].
    by apply elem_of_nil in Hinfo.
  - pose proof (Hlook 0%nat "LA_T_1000" eq_refl) as H0.
    pose proof (Hlook 1%nat "LA_T_1001" eq_refl) as H1.
    pose proof (Hrows 0%nat ltac:(simpl; lia)) as Hfirst.
    pose proof (Hrows 1%nat ltac:(simpl; lia)) as Hsecond.
    change (protocol_parser Toy.ensemble !! Toy.parse_filename "LA_T_1000")
      with (Some 1) in H0.
    change (protocol_parser Toy.ensemble !! Toy.parse_filename "LA_T_1001")
      with (Some 0) in H1.
    destruct target as [|a [|b [|c target]]]; try discriminate Hlen.
    simpl in H0, H1. injection H0 as ->. injection H1 as ->.
    destruct tv as [|t0 [|t1 [|t2 [|t3 [|t4 tv]]]]]; try discriminate Hlentv.
    injection Hfirst as -> ->. injection Hsecond as -> ->.
    exists act, w'. exact Hrun.
Defined.

Lemma inference_prints_one_mean_witness :
  ∃ cos w1,
    Toy.fwd (Model_eval Toy.ensemble) Toy.batch Toy.infos Toy.w0
    = (Ok RetNone,
       World (gen w1) (rng_next w1) [POutput "LA_T_1000" 1 (tmean cos)])
    ∧ length cos = 4%nat.
Proof.
  destruct (inference_prints_one_mean 0 0%Qc Toy.parse_filename
              Toy.parse_length (Model_eval Toy.ensemble) Toy.batch Toy.infos
              Toy.w0 "LA_T_1000")
    as (fv & cos & phi & w1 & target0 & _ & _ & Hcos & _ & Htarget & Hrun & _).
  - reflexivity.
  - apply (toy_well_formed false).
  - apply (toy_row_preserving false).
  - simpl. lia.
  - reflexivity.
  - apply (toy_batch_ready false).
  - apply toy_unit_draws.
  - intros info Hinfo.
    apply elem_of_cons in Hinfo as [->|Hinfo]; [by eexists|].
    apply elem_of_cons in Hinfo as [->|Hinfo]; [by eexists|].
    by apply elem_of_nil in Hinfo.
  - reflexivity.
  - change (protocol_parser (Model_eval Toy.ensemble)
              !! Toy.parse_filename "LA_T_1000") with (Some 1) in Htarget.
    injection Htarget as <-.
    exists cos, w1. split; [exact Hrun|exact Hcos].
Defined.

(** The claim C2 fails on a batch of two utterances with the single member
    of the source: one line is printed, not two; it names the first
    utterance and its score 205250 is the mean over both utterances, whereas
    the utterances alone score 374625 and 35875. *)
Lemma inference_one_line_for_two_utterances :
  let run x fileinfo :=
    stdout (Toy.fwd (Model_eval Toy.single) x fileinfo Toy.w0).2 in
  run Toy.batch Toy.infos
    = [POutput "LA_T_1000" 1 (Fin (Qc_of_Z 205250))]
  ∧ length (run Toy.batch Toy.infos) ≠ length Toy.batch
  ∧ run [160000] ["LA_T_1000"]
    = [POutput "LA_T_1000" 1 (Fin (Qc_of_Z 374625))]
  ∧ run [16000] ["LA_T_1001"]
    = [POutput "LA_T_1001" 0 (Fin (Qc_of_Z 35875))].
Proof. cbv zeta. split_and!; by_evaluation. Qed.



(** * Further properties of the model *)

(** ** Normalization in the other direction *)

Lemma affine_round_trip_back (ys ms ss : list Qc) :
  length ys = length ss → length ms = length ss → Forall (λ s, s ≠ 0%Qc) ss →
  zip_with Qcdiv (zip_with Qcminus (zip_with Qcplus (zip_with Qcmult ys ss) ms) ms) ss
  = ys.
Proof.
  revert ms ss. induction ys as [|y ys IH]; intros [|m ms] [|s ss] ?? Hs;
    simplify_eq/=; [done|].
  inversion_clear Hs. f_equal; [by field|by apply IH].
Qed.

Section MoreNormalizationFacts.
Context {wave frame emb aux : Type}.
Implicit Types self : @Model wave frame emb aux.

(** X1.  Normalizing a denormalized output gives the output back: over exact
    arithmetic, with finite statistics of the output dimension and no zero
    in [output_std], both calls succeed and
    [normalize_target (denormalize_output y) = y]. *)
Theorem normalize_denormalize_output self (yq : list (list Qc))
    (ms ss : list Qc) :
  finite (output_mean self) ms → finite (output_std self) ss →
  length ms = length ss → Forall (λ s, s ≠ 0%Qc) ss →
  Forall (λ row, length row = length ss) yq →
  denormalize_output self (fin_rows yq) ≫= normalize_target self
  = Ok (fin_rows yq).
Proof.
  intros Hm Hs Hlen Hnz Hrows.
  rewrite (denormalize_output_finite self yq ms ss) by done. cbn.
  rewrite (normalize_target_finite self _ ms ss); try done.
  - f_equal. unfold fin_rows. rewrite <- !list_fmap_compose.
    apply list_fmap_ext. intros i row Hi. cbn. f_equal.
    apply affine_round_trip_back; try done.
    apply (Forall_lookup_1 _ _ _ _ Hrows Hi).
  - apply Forall_fmap. eapply Forall_impl; [exact Hrows|].
    intros row Hrow. cbn in Hrow |- *. rewrite !length_zip_with. lia.
Qed.

End MoreNormalizationFacts.

Lemma normalize_denormalize_output_witness :
  denormalize_output Toy.scaled (fin_rows [[Qc_of_Z 5]; [Qc_of_Z 7]])
    ≫= normalize_target Toy.scaled
  = Ok (fin_rows [[Qc_of_Z 5]; [Qc_of_Z 7]]).
Proof.
  apply (normalize_denormalize_output Toy.scaled _ [Qc_of_Z 3] [Qc_of_Z 2]).
  - reflexivity.
  - reflexivity.
  - reflexivity.
  - repeat constructor. by_evaluation.
  - repeat constructor.
Defined.

(** ** The protocol table *)




(** ** Construction, continued *)



Section MoreConstructionFacts.
Context {wave frame emb aux : Type}.
Variable ResNet : nat → Z → @backbone frame emb aux.
Variable LFCC : Z → Z → Z → Z → Z → @frontend wave frame.
Variable OCAngleLayer : nat → Z → @anglelayer emb.




(** X4.  When a vector of the supplied statistics has not the declared
    dimension, the constructor prints the mismatch (the input side first)
    and exits with status 1 before it reads the listing or builds any
    module: no model is returned, whatever the listing and the settings. *)
Theorem Model_init_rejects_statistics hp (in_dim out_dim : Z)
    (in_m in_s out_m out_s : list tval) temp_buffer w :
  let len (v : list tval) := Z.of_nat (length v) in
  ¬ stats_fit in_dim out_dim (Some (in_m, in_s, out_m, out_s)) →
  ∃ what dim mean_dim std_dim,
    Model_init ResNet LFCC OCAngleLayer hp in_dim out_dim
               (Some (in_m, in_s, out_m, out_s)) temp_buffer w
    = (Err (SysExit 1),
       World (gen w) (rng_next w)
             (stdout w ++ [PDimIncompatible what dim mean_dim std_dim]))
    ∧ ((len in_m ≠ in_dim ∨ len in_s ≠ in_dim) →
         (what, dim, mean_dim, std_dim)
         = ("Input"%string, in_dim, len in_m, len in_s))
    ∧ (len in_m = in_dim → len in_s = in_dim →
         (what, dim, mean_dim, std_dim)
         = ("Output"%string, out_dim, len out_m, len out_s)).
Proof.
  intros len Hbad. subst len. cbn in Hbad. cbv beta.
  destruct (decide (Z.of_nat (length in_m) ≠ in_dim
                    ∨ Z.of_nat (length in_s) ≠ in_dim)) as [Hin|Hin].
  - eexists "Input"%string, in_dim, _, _.
    split_and!; [|done|intros; lia].
    unfold Model_init. erewrite bind_Err; [done|].
    unfold prepare_mean_std. cbv zeta.
    rewrite (decide_True _ _ Hin). reflexivity.
  - destruct (decide (Z.of_nat (length out_m) ≠ out_dim
                      ∨ Z.of_nat (length out_s) ≠ out_dim)) as [Hout|Hout].
    + eexists "Output"%string, out_dim, _, _.
      split_and!; [|intros; tauto|done].
      unfold Model_init. erewrite bind_Err; [done|].
      unfold prepare_mean_std. cbv zeta.
      rewrite (decide_False _ _ Hin), (decide_True _ _ Hout). reflexivity.
    + exfalso. apply Hbad. lia.
Qed.

End MoreConstructionFacts.


Lemma Model_init_rejects_statistics_witness :
  Toy.init source_hparams (Some ([tzero; tzero], [tone], [tzero], [tone]))
           Toy.w0
  = (Err (SysExit 1),
     World (gen Toy.w0) 0 [PDimIncompatible "Input" 1 2 1]).
Proof.
  destruct (Model_init_rejects_statistics Toy.ResNet Toy.LFCC Toy.OCAngleLayer
              source_hparams 1 1 [tzero; tzero] [tone] [tzero] [tone]
              Toy.listing Toy.w0)
    as (what & dim & mean_dim & std_dim & Hrun & Hinput & _).
  - simpl. lia.
  - specialize (Hinput ltac:(simpl; lia)).
    injection Hinput as -> -> -> ->. exact Hrun.
Defined.

(** ** Framing, continued *)

(** A failing iteration reached under an invariant fails the loop in a
    state that the iteration determines. *)
Lemma foldM_fails_with {A St} (body : A → St → M St)
    (Inv : nat → St → world → Prop) (Post : world → Prop) l i a e s w :
  l !! i = Some a → Inv 0%nat s w →
  (∀ j b s w, (j < i)%nat → l !! j = Some b → Inv j s w →
     ∃ s' w', body b s w = (Ok s', w') ∧ Inv (S j) s' w') →
  (∀ s w, Inv i s w → ∃ w', body a s w = (Err e, w') ∧ Post w') →
  ∃ w', foldM body l s w = (Err e, w') ∧ Post w'.
Proof.
  revert i Inv s w. induction l as [|b l IH]; intros i Inv s w Hi H0 Hstep Hbad;
    [done|].
  destruct i as [|i]; simplify_eq/=.
  - destruct (Hbad s w H0) as (w' & Hb & Hpost). exists w'.
    by rewrite (bind_Err _ _ _ _ _ Hb).
  - destruct (Hstep 0%nat b s w ltac:(lia) eq_refl H0) as (s1 & w1 & Hb & H1).
    rewrite (bind_Ok _ _ _ _ _ Hb).
    apply (IH i (λ j, Inv (S j))); [done..| |done].
    intros j c s' w' Hj Hc. apply (Hstep (S j)); [lia|done].
Qed.

Lemma cropped_rows_S (fs trunc_len : Z) (datalength : list Z) (k : nat)
    (len : Z) :
  datalength !! k = Some len →
  cropped_rows fs trunc_len datalength (S k)
  = (cropped_rows fs trunc_len datalength k
     + if decide (len / fs > trunc_len)%Z then 1 else 0)%nat.
Proof.
  intros Hk. unfold cropped_rows.
  rewrite (take_S_r _ _ _ Hk), filter_app, length_app, filter_cons, filter_nil.
  by destruct (decide (len / fs > trunc_len)).
Qed.

Section MoreFramingFacts.
Context {wave frame emb aux : Type}.
Variable frame_zero : frame.
Implicit Types self : @Model wave frame emb aux.
Implicit Types wav : list wave.
Implicit Types fe : @frontend wave frame.

(** X5.  When every row is ready, [_front_end] returns a tensor with one
    row per row of the batch, each of exactly [trunc_len] frames; it prints
    nothing, and it takes one draw from the generator for each cropped row
    (a row with more than [trunc_len] true frames) and none for the
    others. *)
Theorem front_end_shape_and_draws self wav idx (trunc_len : Z) datalength
    fe fs w :
  m_frontend self !! idx = Some fe → frame_hops self !! idx = Some fs →
  fs ≠ 0 → 0 ≤ trunc_len → rows_ready (fe wav) fs datalength →
  unit_draws w →
  ∃ buf,
    _front_end frame_zero self wav idx trunc_len datalength w
    = (Ok buf,
       World (gen w)
             (rng_next w
              + cropped_rows fs trunc_len datalength (length (fe wav)))
             (stdout w))
    ∧ length buf = length (fe wav)
    ∧ Forall (λ row, length row = Z.to_nat trunc_len) buf.
Proof.
  intros Hfe Hfs Hnz Ht Hready Hdraws.
  unfold _front_end, py_index, torch_zeros.
  rewrite Hfe, bind_lift_Ok, decide_False, bind_lift_Ok by lia.
  rewrite Hfs, bind_lift_Ok.
  set (x_sp_amp := fe wav) in *.
  set (buf0 := replicate _ _).
  destruct (foldM_invariant
    (_front_end_row x_sp_amp fs trunc_len datalength)
    (λ k buf w',
       length buf = length x_sp_amp ∧ gen w' = gen w ∧ stdout w' = stdout w
       ∧ rng_next w'
         = (rng_next w + cropped_rows fs trunc_len datalength k)%nat
       ∧ Forall (λ row, length row = Z.to_nat trunc_len) buf)
    (range (length x_sp_amp)) buf0 w) as (buf & w' & Hrun & Hinv).
  - split_and!; [apply length_replicate|done..| |].
    + unfold cropped_rows. rewrite take_0. cbn. lia.
    + apply Forall_replicate. apply length_replicate.
  - intros i a buf w1 Hi (Hlen & Hgen & Hout & Hrng & Hshape).
    apply lookup_seq in Hi as [-> Hi]. cbn in Hi |- *.
    destruct (proj2 (lookup_lt_is_Some x_sp_amp i) Hi) as [row Hrow].
    destruct (Hready i row Hrow) as (len & Hdl & Hn1 & Hn2).
    destruct (Hdraws (rng_next w1)) as [Hr0 Hr1]. rewrite <- Hgen in Hr0, Hr1.
    destruct (_front_end_row_ready x_sp_amp fs trunc_len datalength i buf w1
                row len Hrow Hdl Hnz Ht Hn1 Hn2 Hr0 Hr1)
      as (w2 & Hstep & Hgen2 & Hout2 & Hrng2).
    eexists _, w2. split; [exact Hstep|].
    split_and!; [by rewrite length_insert|congruence..| |].
    + rewrite Hrng2, (cropped_rows_S _ _ _ _ _ Hdl), Hrng.
      destruct (decide (len / fs > trunc_len)); lia.
    + apply Forall_insert; [done|].
      by apply length_framed.
  - unfold range in Hinv. rewrite length_seq in Hinv.
    destruct Hinv as (Hlen & Hgen & Hout & Hrng & Hshape).
    exists buf. split_and!; [|done..].
    rewrite Hrun. f_equal. destruct w'. cbn in *. by subst.
Qed.

End MoreFramingFacts.

Lemma front_end_shape_and_draws_witness :
  ∃ buf,
    _front_end 0 Toy.ensemble Toy.batch 0 750 Toy.batch Toy.w0
    = (Ok buf, World (gen Toy.w0) 1 [])
    ∧ length buf = 2%nat
    ∧ Forall (λ row, length row = 750%nat) buf.
Proof.
  destruct (front_end_shape_and_draws 0 Toy.ensemble Toy.batch 0 750
              Toy.batch (Toy.LFCC 320 160 512 16000 20) 160 Toy.w0)
    as (buf & Hrun & Hlen & Hshape).
  - reflexivity.
  - reflexivity.
  - lia.
  - lia.
  - apply toy_rows_ready; [lia|]. repeat constructor; simpl; lia.
  - apply toy_unit_draws.
  - exists buf. split_and!; [exact Hrun|exact Hlen|exact Hshape].
Defined.

Section FramingWithoutDraws.
Context {wave frame emb aux : Type}.
Variable frame_zero : frame.
Implicit Types self : @Model wave frame emb aux.
Implicit Types wav : list wave.
Implicit Types fe : @frontend wave frame.

Lemma _front_end_row_tiled (x_sp_amp : list (list frame)) (fs trunc_len : Z)
    datalength i buf w row (len : Z) :
  x_sp_amp !! i = Some row → datalength !! i = Some len →
  fs ≠ 0 → 0 ≤ trunc_len →
  1 ≤ len / fs → len / fs ≤ trunc_len → len / fs ≤ Z.of_nat (length row) →
  _front_end_row x_sp_amp fs trunc_len datalength i buf w
  = (Ok (<[i := framed 0%Qc trunc_len (len / fs) row]> buf), w).
Proof.
  intros Hrow Hlen Hfs Ht Hn1 Hle Hn2.
  assert (length (framed 0%Qc trunc_len (len / fs) row) = Z.to_nat trunc_len)
    as Hfr.
  { apply length_framed; [by_evaluation|by_evaluation|done..]. }
  unfold _front_end_row, py_index, py_floordiv.
  rewrite Hlen, bind_lift_Ok, decide_False, bind_lift_Ok by done.
  rewrite Hrow, bind_lift_Ok. unfold framed in *.
  rewrite decide_False in Hfr by lia. rewrite !decide_False by lia.
  unfold np_ceil_div. rewrite decide_False by lia.
  rewrite bind_lift_Ok. unfold torch_repeat.
  destruct (ceil_covers trunc_len (len / fs) Hn1 Ht) as [(?&?&?)|[? Hrep]].
  - rewrite decide_False by lia.
    rewrite bind_lift_Ok, broadcast_to_same by done.
    by rewrite bind_lift_Ok.
  - rewrite decide_False by lia.
    rewrite bind_lift_Ok, broadcast_to_same by done.
    by rewrite bind_lift_Ok.
Qed.

(** X6.  When no row has more than [trunc_len] true frames, [_front_end]
    does not read the generator: it returns the same tensor whatever the
    state, and leaves the state as it found it. *)
Theorem front_end_without_crop self wav idx (trunc_len : Z) datalength
    fe fs :
  m_frontend self !! idx = Some fe → frame_hops self !! idx = Some fs →
  fs ≠ 0 → 0 ≤ trunc_len → rows_ready (fe wav) fs datalength →
  (∀ i len, (i < length (fe wav))%nat → datalength !! i = Some len →
     len / fs ≤ trunc_len) →
  ∃ buf, ∀ w,
    _front_end frame_zero self wav idx trunc_len datalength w = (Ok buf, w).
Proof.
  intros Hfe Hfs Hnz Ht Hready Hshort.
  set (x_sp_amp := fe wav) in *.
  exists (zip_with (λ row len, framed 0%Qc trunc_len (len / fs) row)
                   x_sp_amp datalength).
  intros w. unfold _front_end, py_index, torch_zeros.
  rewrite Hfe, bind_lift_Ok, decide_False, bind_lift_Ok by lia.
  rewrite Hfs, bind_lift_Ok. fold x_sp_amp.
  set (buf0 := replicate _ _).
  destruct (foldM_invariant
    (_front_end_row x_sp_amp fs trunc_len datalength)
    (λ k buf w',
       w' = w ∧ length buf = length x_sp_amp
       ∧ ∀ i row len, (i < k)%nat → x_sp_amp !! i = Some row →
           datalength !! i = Some len →
           buf !! i = Some (framed 0%Qc trunc_len (len / fs) row))
    (range (length x_sp_amp)) buf0 w) as (buf & w' & Hrun & Hinv).
  - split_and!; [done|apply length_replicate|intros; lia].
  - intros i a buf w1 Hi (-> & Hlen & Hrows).
    apply lookup_seq in Hi as [-> Hi]. cbn in Hi |- *.
    destruct (proj2 (lookup_lt_is_Some x_sp_amp i) Hi) as [row Hrow].
    destruct (Hready i row Hrow) as (len & Hdl & Hn1 & Hn2).
    pose proof (Hshort i len Hi Hdl) as Hle.
    eexists _, w. split.
    { by apply (_front_end_row_tiled x_sp_amp fs trunc_len datalength i buf w
                  row len). }
    split_and!; [done|by rewrite length_insert|].
    intros j row' len' Hj Hrow' Hdl'.
    destruct (decide (j = i)) as [->|Hne].
    + simplify_eq. by rewrite list_lookup_insert_eq by lia.
    + rewrite list_lookup_insert_ne by done.
      apply (Hrows j row' len'); [lia|done..].
  - unfold range in Hinv. rewrite length_seq in Hinv.
    destruct Hinv as (-> & Hlen & Hrows). rewrite Hrun. do 2 f_equal.
    apply list_eq. intros i. rewrite lookup_zip_with.
    destruct (x_sp_amp !! i) as [row|] eqn:Hrow; cbn.
    + destruct (Hready i row Hrow) as (len & Hdl & _).
      rewrite Hdl. cbn. apply (Hrows i row len); [|done..].
      by eapply lookup_lt_Some.
    + apply lookup_ge_None_2. rewrite Hlen. by apply lookup_ge_None_1.
Qed.

(** X7.  When [datalength] has fewer entries than the batch has rows, and
    the rows that have an entry are ready, [_front_end] raises [IndexError]
    at the first row without one; it prints nothing. *)
Theorem front_end_missing_length self wav idx (trunc_len : Z) datalength
    fe fs w :
  m_frontend self !! idx = Some fe → frame_hops self !! idx = Some fs →
  fs ≠ 0 → 0 ≤ trunc_len →
  (length datalength < length (fe wav))%nat →
  rows_ready (take (length datalength) (fe wav)) fs datalength →
  unit_draws w →
  ∃ w', _front_end frame_zero self wav idx trunc_len datalength w
        = (Err IndexError, w')
    ∧ stdout w' = stdout w.
Proof.
  intros Hfe Hfs Hnz Ht Hfew Hready Hdraws.
  unfold _front_end, py_index, torch_zeros.
  rewrite Hfe, bind_lift_Ok, decide_False, bind_lift_Ok by lia.
  rewrite Hfs, bind_lift_Ok.
  apply (foldM_fails_with _
           (λ _ _ w1, gen w1 = gen w ∧ stdout w1 = stdout w)
           (λ w1, stdout w1 = stdout w)
           _ (length datalength) (length datalength)).
  - apply lookup_seq. split; [done|lia].
  - done.
  - intros j b buf w1 Hj Hb [Hgen Hout]. apply lookup_seq in Hb as [-> Hb].
    cbn in Hb |- *.
    destruct (proj2 (lookup_lt_is_Some (fe wav) j) Hb) as [rowj Hrowj].
    destruct (Hready j rowj) as (lenj & Hdl & Hn1 & Hn2).
    { rewrite lookup_take, decide_True by done. done. }
    destruct (Hdraws (rng_next w1)) as [Hr0 Hr1].
    rewrite <- Hgen in Hr0, Hr1.
    destruct (_front_end_row_ready (fe wav) fs trunc_len datalength j buf
                w1 rowj lenj Hrowj Hdl Hnz Ht Hn1 Hn2 Hr0 Hr1)
      as (w2 & Hstep & Hgen2 & Hout2 & _).
    eexists _, w2. split; [exact Hstep|]. split; congruence.
  - intros buf w1 [_ Hout]. exists w1. split; [|done].
    unfold _front_end_row, py_index.
    by rewrite (lookup_ge_None_2 datalength (length datalength)) by lia.
Qed.

End FramingWithoutDraws.

Lemma front_end_without_crop_witness :
  ∃ buf,
    _front_end 0 Toy.ensemble [16000] 0 750 [16000] Toy.w0 = (Ok buf, Toy.w0)
    ∧ _front_end 0 Toy.ensemble [16000] 0 750 [16000]
                 (World (λ _, 0%Qc) 7 [PCannotFind []])
      = (Ok buf, World (λ _, 0%Qc) 7 [PCannotFind []]).
Proof.
  destruct (front_end_without_crop 0 Toy.ensemble [16000] 0 750 [16000]
              (Toy.LFCC 320 160 512 16000 20) 160)
    as [buf Hrun].
  - reflexivity.
  - reflexivity.
  - lia.
  - lia.
  - apply toy_rows_ready; [lia|]. repeat constructor; simpl; lia.
  - intros i len Hi Hdl. destruct i as [|i]; [|discriminate Hdl].
    injection Hdl as <-. by_evaluation.
  - exists buf. split; apply Hrun.
Defined.

Lemma front_end_missing_length_witness :
  ∃ w', _front_end 0 Toy.ensemble Toy.batch 0 750 [160000] Toy.w0
        = (Err IndexError, w')
    ∧ stdout w' = [].
Proof.
  apply (front_end_missing_length 0 Toy.ensemble Toy.batch 0 750 [160000]
           (Toy.LFCC 320 160 512 16000 20) 160 Toy.w0).
  - reflexivity.
  - reflexivity.
  - lia.
  - lia.
  - simpl. lia.
  - apply (toy_rows_ready 320 160 512 16000 20 [160000]); [lia|].
    repeat constructor; simpl; lia.
  - apply toy_unit_draws.
Defined.

(** ** The forward pass, continued *)

Section MoreForwardFacts.
Context {wave frame emb aux : Type}.
Variable frame_zero : frame.
Variable emb_zero : emb.
Variable parse_filename : string → string.
Variable parse_length : string → Z.
Implicit Types self : @Model wave frame emb aux.
Implicit Types x : list wave.

Lemma _front_end_zero_row self x idx (trunc_len : Z) datalength
    (fe : @frontend wave frame) fs w i row (len : Z) :
  m_frontend self !! idx = Some fe → frame_hops self !! idx = Some fs →
  fs ≠ 0 → 0 ≤ trunc_len →
  fe x !! i = Some row → datalength !! i = Some len → len / fs = 0 →
  rows_ready (take i (fe x)) fs datalength → unit_draws w →
  ∃ w', _front_end frame_zero self x idx trunc_len datalength w
        = (Err ZeroDivisionError, w')
    ∧ stdout w' = stdout w.
Proof.
  intros Hfe Hfs Hnz Ht Hrow Hlen Hzero Hready Hdraws.
  unfold _front_end, py_index, torch_zeros.
  rewrite Hfe, bind_lift_Ok, decide_False, bind_lift_Ok by lia.
  rewrite Hfs, bind_lift_Ok.
  apply (foldM_fails_with _
           (λ _ _ w1, gen w1 = gen w ∧ stdout w1 = stdout w)
           (λ w1, stdout w1 = stdout w) _ i i).
  - apply lookup_seq. split; [done|]. by eapply lookup_lt_Some.
  - done.
  - intros j b buf w1 Hj Hb [Hgen Hout]. apply lookup_seq in Hb as [-> Hb].
    cbn in Hb |- *.
    destruct (proj2 (lookup_lt_is_Some (fe x) j) Hb) as [rowj Hrowj].
    destruct (Hready j rowj) as (lenj & Hdl & Hn1 & Hn2).
    { rewrite lookup_take, decide_True by done. done. }
    destruct (Hdraws (rng_next w1)) as [Hr0 Hr1].
    rewrite <- Hgen in Hr0, Hr1.
    destruct (_front_end_row_ready (fe x) fs trunc_len datalength j buf
                w1 rowj lenj Hrowj Hdl Hnz Ht Hn1 Hn2 Hr0 Hr1)
      as (w2 & Hstep & Hgen2 & Hout2 & _).
    eexists _, w2. split; [exact Hstep|]. split; congruence.
  - intros buf w1 [_ Hout]. exists w1. split; [|done].
    by eapply _front_end_row_zero.
Qed.

(** X8.  An utterance shorter than one hop of the first member stops the
    forward pass in either mode: when the rows before it are ready,
    [forward] raises [ZeroDivisionError]; no target is looked up and
    nothing is printed. *)
Theorem forward_zero_length_utterance self x (fileinfo : list string) w
    (fe : @frontend wave frame) fs (trunc_len : Z) i row info :
  well_formed self →
  m_frontend self !! 0%nat = Some fe → frame_hops self !! 0%nat = Some fs →
  v_truncate_lens self !! 0%nat = Some trunc_len →
  fs ≠ 0 → 0 ≤ trunc_len →
  fe x !! i = Some row → fileinfo !! i = Some info →
  parse_length info / fs = 0 →
  rows_ready (take i (fe x)) fs (parse_length <$> fileinfo) →
  unit_draws w →
  ∃ w',
    forward frame_zero emb_zero parse_filename parse_length self x fileinfo w
    = (Err ZeroDivisionError, w')
    ∧ stdout w' = stdout w.
Proof.
  intros Hwf Hfe Hfs Htr Hnz Ht Hrow Hinfo Hzero Hready Hdraws.
  destruct Hwf as (Hhops & Hlens & Hfft & Htrunc & Hmodel & _).
  assert (∃ w', _compute_embedding frame_zero emb_zero self x
                  (parse_length <$> fileinfo) w = (Err ZeroDivisionError, w')
            ∧ stdout w' = stdout w) as (w' & Hemb & Hout).
  { unfold _compute_embedding, torch_zeros.
    rewrite decide_False, bind_lift_Ok by lia.
    destruct (_front_end_zero_row self x 0 trunc_len
                (parse_length <$> fileinfo) fe fs w i row (parse_length info))
      as (w' & Hfail & Hout); try done.
    { by rewrite list_lookup_fmap, Hinfo. }
    destruct (frame_hops self) as [|fs' hops]; [done|].
    destruct (v_truncate_lens self) as [|tr' truncs]; [done|].
    injection Hfs as ->. injection Htr as ->.
    destruct (frame_lens self) as [|fl lens]; [cbn in *; lia|].
    destruct (fft_n self) as [|fn ffts]; [cbn in *; lia|].
    destruct (m_model self) as [|fm models]; [cbn in *; lia|].
    cbn [zip zip_with enumerate length seq foldM].
    exists w'. split; [|done].
    erewrite bind_Err; [done|]. unfold _compute_embedding_step.
    erewrite bind_Err; [done|]. exact Hfail. }
  exists w'. split; [|done].
  unfold forward. destruct (training self); by erewrite bind_Err.
Qed.

(** X9.  A file name without an entry in the protocol table stops the
    forward pass in either mode, after the embeddings and the scores were
    computed: [forward] prints the file names of the batch, exits with
    status 1 and prints no score line. *)
Theorem forward_missing_target self x (fileinfo : list string) w info :
  well_formed self → row_preserving self → (0 < v_submodels self)%nat →
  batch_ready self x (parse_length <$> fileinfo) →
  unit_draws w →
  info ∈ fileinfo → protocol_parser self !! parse_filename info = None →
  ∃ w1,
    forward frame_zero emb_zero parse_filename parse_length self x fileinfo w
    = (Err (SysExit 1),
       World (gen w1) (rng_next w1)
             (stdout w ++ [PCannotFind (parse_filename <$> fileinfo)])).
Proof.
  intros Hwf Hrp HN Hready Hdraws Hin Hnone.
  destruct (_compute_embedding_total frame_zero emb_zero self x
              (parse_length <$> fileinfo) w Hwf Hrp Hready Hdraws)
    as (fv & w1 & Hemb & Hlen & _ & Hstd & _).
  assert (parse_filename info ∈ parse_filename <$> fileinfo) as Hin'.
  { apply list_elem_of_fmap. by exists info. }
  pose proof (_get_target_missing self _ _ w1 Hin' Hnone) as Hget.
  exists w1. unfold forward. destruct (training self).
  - destruct (_compute_score_total self fv false w1 (length x) Hwf Hrp HN Hlen)
      as (cos & phi & Hscore & _).
    rewrite (bind_Ok _ _ _ _ _ Hemb), (bind_Ok _ _ _ _ _ Hscore).
    rewrite (bind_Err _ _ _ _ _ Hget). by rewrite Hstd.
  - destruct (_compute_score_total self fv true w1 (length x) Hwf Hrp HN Hlen)
      as (cos & phi & Hscore & _).
    rewrite (bind_Ok _ _ _ _ _ Hemb), (bind_Ok _ _ _ _ _ Hscore).
    rewrite (bind_Err _ _ _ _ _ Hget). by rewrite Hstd.
Qed.

End MoreForwardFacts.

Section TrainingAndLossFacts.
Context {wave frame emb aux loss target_t : Type}.
Variable frame_zero : frame.
Variable emb_zero : emb.
Variable parse_filename : string → string.
Variable parse_length : string → Z.
Variable m_loss : list tval * list tval → list Z → loss.
Implicit Types self : @Model wave frame emb aux.
Implicit Types x : list wave.

(** X10.  In training mode [forward] prints nothing, and the scores it
    returns are those of [_compute_score] without the margin flag on the
    embeddings of the batch; in inference mode the score line is the only
    thing printed and the scores are computed with the margin flag. *)
Theorem forward_scores_and_output self x (fileinfo : list string) w :
  well_formed self → row_preserving self → (0 < v_submodels self)%nat →
  (0 < length x)%nat → length fileinfo = length x →
  batch_ready self x (parse_length <$> fileinfo) →
  unit_draws w →
  (∀ info, info ∈ fileinfo →
     is_Some (protocol_parser self !! parse_filename info)) →
  ∃ feature_vec w1 scores ret w',
    _compute_embedding frame_zero emb_zero self x (parse_length <$> fileinfo) w
    = (Ok feature_vec, w1)
    ∧ _compute_score self feature_vec (negb (training self)) w1
      = (Ok scores, w1)
    ∧ forward frame_zero emb_zero parse_filename parse_length self x fileinfo w
      = (Ok ret, w')
    ∧ gen w' = gen w ∧ rng_next w' = rng_next w1
    ∧ if training self
      then (∃ target_vec, ret = RetTrain scores target_vec true)
           ∧ stdout w' = stdout w
      else ret = RetNone
           ∧ ∃ name target, stdout w'
                = stdout w ++ [POutput name target (tmean scores.1)].
Proof.
  intros Hwf Hrp HN HB Hinfo Hready Hdraws Hfound.
  destruct (_compute_embedding_total frame_zero emb_zero self x
              (parse_length <$> fileinfo) w Hwf Hrp Hready Hdraws)
    as (fv & w1 & Hemb & Hlen & Hgen & Hstd & _).
  destruct (_compute_score_total self fv (negb (training self)) w1 (length x)
              Hwf Hrp HN Hlen)
    as (cos & phi & Hscore & Hcos & Hphi & _).
  destruct (targets_exist (protocol_parser self) (parse_filename <$> fileinfo))
    as [target Htarget].
  { intros f Hf. apply list_elem_of_fmap in Hf as (info & -> & Hin).
    by apply Hfound. }
  pose proof (_get_target_found self _ target w1 Htarget) as Hget.
  unfold forward. destruct (training self) eqn:Htrain; cbn [negb] in Hscore.
  - exists fv, w1, (cos, phi), (RetTrain (cos, phi)
                                  (mjoin (replicate (v_submodels self) target))
                                  true), w1.
    split_and!; try done; [|by eauto].
    rewrite (bind_Ok _ _ _ _ _ Hemb), (bind_Ok _ _ _ _ _ Hscore).
    rewrite (bind_Ok _ _ _ _ _ Hget).
    unfold torch_repeat. rewrite decide_False, bind_lift_Ok by lia.
    by rewrite Nat2Z.id.
  - destruct fileinfo as [|info0 fileinfo]; [cbn in Hinfo; lia|].
    assert ((parse_filename <$> info0 :: fileinfo) !! 0%nat
            = Some (parse_filename info0)) as Hname0 by done.
    destruct (Forall2_lookup_l _ _ _ _ _ Htarget Hname0)
      as (target0 & Ht0 & Hl0).
    exists fv, w1, (cos, phi), RetNone,
      (World (gen w1) (rng_next w1)
             (stdout w1 ++ [POutput (parse_filename info0) target0
                                    (tmean cos)])).
    split_and!; try done.
    + rewrite (bind_Ok _ _ _ _ _ Hemb), (bind_Ok _ _ _ _ _ Hscore).
      rewrite (bind_Ok _ _ _ _ _ Hget).
      unfold py_index. by rewrite Hname0, bind_lift_Ok, Ht0, bind_lift_Ok.
    + exists (parse_filename info0), target0. cbn. by rewrite Hstd.
Qed.

(** X11.  On an empty batch [forward] in inference mode raises
    [IndexError] when it reads the first file name, and in training mode
    returns empty score buffers and an empty target vector; neither prints
    anything. *)
Theorem forward_empty_batch self w :
  well_formed self → row_preserving self → (0 < v_submodels self)%nat →
  batch_ready self [] [] → unit_draws w →
  ∃ w',
    forward frame_zero emb_zero parse_filename parse_length self [] [] w
    = (if training self then Ok (RetTrain ([], []) [] true)
       else Err IndexError, w')
    ∧ stdout w' = stdout w.
Proof.
  intros Hwf Hrp HN Hready Hdraws.
  destruct (_compute_embedding_total frame_zero emb_zero self [] [] w
              Hwf Hrp Hready Hdraws)
    as (fv & w1 & Hemb & Hlen & Hgen & Hstd & _).
  cbn in Hlen. apply nil_length_inv in Hlen as ->.
  exists w1. split; [|done]. unfold forward. cbn [fmap list_fmap].
  destruct (training self).
  - destruct (_compute_score_total self [] false w1 0 Hwf Hrp HN eq_refl)
      as (cos & phi & Hscore & Hcos & Hphi & _).
    cbn in Hcos, Hphi.
    apply nil_length_inv in Hcos as ->. apply nil_length_inv in Hphi as ->.
    rewrite (bind_Ok _ _ _ _ _ Hemb), (bind_Ok _ _ _ _ _ Hscore).
    unfold _get_target. cbn [mapM]. unfold mret at 1, option_ret.
    rewrite (bind_Ok _ _ w1 [] w1) by done.
    unfold torch_repeat. rewrite decide_False, bind_lift_Ok by lia.
    assert (mjoin (replicate (Z.to_nat (Z.of_nat (v_submodels self)))
                             (@nil Z)) = []) as ->; [|done].
    apply nil_length_inv. by rewrite length_tile.
  - destruct (_compute_score_total self [] true w1 0 Hwf Hrp HN eq_refl)
      as (cos & phi & Hscore & _).
    rewrite (bind_Ok _ _ _ _ _ Hemb), (bind_Ok _ _ _ _ _ Hscore).
    unfold _get_target. cbn [mapM]. unfold mret at 1, option_ret.
    by rewrite (bind_Ok _ _ w1 [] w1) by done.
Qed.

(** X12.  The loss of a training step is the external loss of the score
    buffers and of the target vector that [forward] built, whatever the
    [target] handed to [compute]: score buffers and labels all have
    [B * N] rows, the labels being those of the batch repeated per member.
    On what [forward] returns in inference mode, [compute] raises
    [TypeError]. *)
Theorem loss_of_training_step self x (fileinfo : list string) w :
  well_formed self → row_preserving self → (0 < v_submodels self)%nat →
  (0 < length x)%nat → length fileinfo = length x →
  batch_ready self x (parse_length <$> fileinfo) →
  unit_draws w →
  (∀ info, info ∈ fileinfo →
     is_Some (protocol_parser self !! parse_filename info)) →
  let B := length x in
  let N := v_submodels self in
  ∃ outputs w',
    forward frame_zero emb_zero parse_filename parse_length self x fileinfo w
    = (Ok outputs, w')
    ∧ if training self
      then ∃ cos phi labels,
             length cos = (B * N)%nat ∧ length phi = (B * N)%nat
             ∧ Forall2 (λ info l, protocol_parser self !! parse_filename info
                                  = Some l) fileinfo labels
             ∧ ∀ target : target_t,
                 Loss_compute m_loss outputs target
                 = LossValue (m_loss (cos, phi) (mjoin (replicate N labels)))
      else ∀ target : target_t,
             Loss_compute m_loss outputs target = TypeErrorNone.
Proof.
  intros Hwf Hrp HN HB Hinfo Hready Hdraws Hfound B N.
  destruct (_compute_embedding_total frame_zero emb_zero self x
              (parse_length <$> fileinfo) w Hwf Hrp Hready Hdraws)
    as (fv & w1 & Hemb & Hlen & Hgen & Hstd & _).
  destruct (targets_exist (protocol_parser self) (parse_filename <$> fileinfo))
    as [target Htarget].
  { intros f Hf. apply list_elem_of_fmap in Hf as (info & -> & Hin).
    by apply Hfound. }
  pose proof (_get_target_found self _ target w1 Htarget) as Hget.
  unfold forward. destruct (training self) eqn:Htrain.
  - destruct (_compute_score_total self fv false w1 B Hwf Hrp HN Hlen)
      as (cos & phi & Hscore & Hcos & Hphi & _).
    exists (RetTrain (cos, phi) (mjoin (replicate N target)) true), w1. split.
    + rewrite (bind_Ok _ _ _ _ _ Hemb), (bind_Ok _ _ _ _ _ Hscore).
      rewrite (bind_Ok _ _ _ _ _ Hget).
      unfold torch_repeat. rewrite decide_False, bind_lift_Ok by lia.
      by rewrite Nat2Z.id.
    + exists cos, phi, target. split_and!; [done..| |done].
      by apply Forall2_fmap_l in Htarget.
  - destruct (_compute_score_total self fv true w1 B Hwf Hrp HN Hlen)
      as (cos & phi & Hscore & _).
    destruct fileinfo as [|info0 fileinfo]; [cbn in Hinfo; lia|].
    assert ((parse_filename <$> info0 :: fileinfo) !! 0%nat
            = Some (parse_filename info0)) as Hname0 by done.
    destruct (Forall2_lookup_l _ _ _ _ _ Htarget Hname0)
      as (target0 & Ht0 & Hl0).
    eexists RetNone, _. split; [|done].
    rewrite (bind_Ok _ _ _ _ _ Hemb), (bind_Ok _ _ _ _ _ Hscore).
    rewrite (bind_Ok _ _ _ _ _ Hget).
    unfold py_index. by rewrite Hname0, bind_lift_Ok, Ht0, bind_lift_Ok.
Qed.

End TrainingAndLossFacts.

(** ** The further properties on the small instance *)

Lemma toy_batch_ready_long (tr : bool) (wav : list Z) :
  Forall (λ n, 320 ≤ n) wav →
  batch_ready (if tr then Toy.ensemble else Model_eval Toy.ensemble) wav wav.
Proof.
  intros Hlong.
  assert (batch_ready Toy.ensemble wav wav) as Hready.
  { intros idx fe fs trunc_len.
    change (m_frontend Toy.ensemble)
      with [Toy.LFCC 320 160 512 16000 20; Toy.LFCC 640 320 1024 16000 20].
    change (frame_hops Toy.ensemble) with [160; 320].
    change (v_truncate_lens Toy.ensemble) with [750; 375].
    intros Hfe Hfs Htr.
    destruct idx as [|[|idx]]; [| |done].
    - injection Hfe as <-. injection Hfs as <-. injection Htr as <-.
      split_and!; [done..|].
      apply toy_rows_ready; [done|].
      eapply Forall_impl; [exact Hlong|]. intros n Hn. cbn in Hn. lia.
    - injection Hfe as <-. injection Hfs as <-. injection Htr as <-.
      split_and!; [done..|].
      by apply toy_rows_ready. }
  by destruct tr.
Qed.

Lemma forward_zero_length_utterance_witness :
  ∃ w', Toy.fwd Toy.ensemble [160000; 0] ["LA_T_1000"; "LA_T_0"] Toy.w0
        = (Err ZeroDivisionError, w')
    ∧ stdout w' = [].
Proof.
  apply (forward_zero_length_utterance 0 0%Qc Toy.parse_filename
           Toy.parse_length Toy.ensemble [160000; 0] ["LA_T_1000"; "LA_T_0"]
           Toy.w0 (Toy.LFCC 320 160 512 16000 20) 160 750 1 (seqZ 0 1)
           "LA_T_0").
  - apply (toy_well_formed true).
  - reflexivity.
  - reflexivity.
  - reflexivity.
  - lia.
  - lia.
  - reflexivity.
  - reflexivity.
  - reflexivity.
  - intros j rowj Hj. destruct j as [|j]; [|discriminate Hj].
    change (Some (seqZ 0 (160000 / 160 + 1)) = Some rowj) in Hj.
    injection Hj as <-. exists 160000. split; [reflexivity|].
    rewrite length_seqZ. split; by_evaluation.
  - apply toy_unit_draws.
Defined.

Lemma forward_missing_target_witness :
  ∃ w1,
    forward 0 0%Qc Toy.parse_filename (λ _, 16000) Toy.ensemble
            [16000; 16000] ["LA_T_1000"; "LA_T_1002"] Toy.w0
    = (Err (SysExit 1),
       World (gen w1) (rng_next w1)
             [PCannotFind ["LA_T_1000"; "LA_T_1002"]]).
Proof.
  apply (forward_missing_target 0 0%Qc Toy.parse_filename (λ _, 16000)
           Toy.ensemble [16000; 16000] ["LA_T_1000"; "LA_T_1002"] Toy.w0
           "LA_T_1002").
  - apply (toy_well_formed true).
  - apply (toy_row_preserving true).
  - simpl. lia.
  - apply (toy_batch_ready_long true [16000; 16000]).
    repeat constructor; simpl; lia.
  - apply toy_unit_draws.
  - apply elem_of_cons. right. apply elem_of_cons. by left.
  - reflexivity.
Defined.

Lemma forward_scores_and_output_witness :
  ∃ ret w',
    Toy.fwd Toy.ensemble Toy.batch Toy.infos Toy.w0 = (Ok ret, w')
    ∧ stdout w' = [].
Proof.
  destruct (forward_scores_and_output 0 0%Qc Toy.parse_filename
              Toy.parse_length Toy.ensemble Toy.batch Toy.infos Toy.w0)
    as (fv & w1 & scores & ret & w' & _ & _ & Hrun & _ & _ & Hmode).
  - apply (toy_well_formed true).
  - apply (toy_row_preserving true).
  - simpl. lia.
  - simpl. lia.
  - reflexivity.
  - apply (toy_batch_ready true).
  - apply toy_unit_draws.
  - intros info Hinfo.
    apply elem_of_cons in Hinfo as [->|Hinfo]; [by eexists|].
    apply elem_of_cons in Hinfo as [->|Hinfo]; [by eexists|].
    by apply elem_of_nil in Hinfo.
  - change (training Toy.ensemble) with true in Hmode.
    destruct Hmode as [_ Hstd].
    exists ret, w'. split; [exact Hrun|exact Hstd].
Defined.

Lemma forward_empty_batch_witness :
  ∃ w', Toy.fwd (Model_eval Toy.ensemble) [] [] Toy.w0 = (Err IndexError, w')
    ∧ stdout w' = [].
Proof.
  apply (forward_empty_batch 0 0%Qc Toy.parse_filename Toy.parse_length
           (Model_eval Toy.ensemble) Toy.w0).
  - apply (toy_well_formed false).
  - apply (toy_row_preserving false).
  - simpl. lia.
  - apply (toy_batch_ready_long false []). constructor.
  - apply toy_unit_draws.
Defined.

Lemma loss_of_training_step_witness :
  ∃ outputs w' cos,
    Toy.fwd Toy.ensemble Toy.batch Toy.infos Toy.w0 = (Ok outputs, w')
    ∧ Loss_compute Toy.m_loss outputs "unused"%string
      = LossValue (cos, [1; 0; 1; 0]).
Proof.
  destruct (loss_of_training_step (target_t := string) 0 0%Qc
              Toy.parse_filename Toy.parse_length Toy.m_loss Toy.ensemble
              Toy.batch Toy.infos Toy.w0)
    as (outputs & w' & Hrun & Hmode).
  - apply (toy_well_formed true).
  - apply (toy_row_preserving true).
  - simpl. lia.
  - simpl. lia.
  - reflexivity.
  - apply (toy_batch_ready true).
  - apply toy_unit_draws.
  - intros info Hinfo.
    apply elem_of_cons in Hinfo as [->|Hinfo]; [by eexists|].
    apply elem_of_cons in Hinfo as [->|Hinfo]; [by eexists|].
    by apply elem_of_nil in Hinfo.
  - change (training Toy.ensemble) with true in Hmode.
    destruct Hmode as (cos & phi & labels & _ & _ & Hlabels & Hloss).
    apply Forall2_cons_inv_l in Hlabels as (l0 & labels1 & H0 & Hlabels & ->).
    apply Forall2_cons_inv_l in Hlabels as (l1 & labels2 & H1 & Hlabels & ->).
    apply Forall2_nil_inv_l in Hlabels as ->.
    change (protocol_parser Toy.ensemble !! Toy.parse_filename "LA_T_1000")
      with (Some 1) in H0.
    change (protocol_parser Toy.ensemble !! Toy.parse_filename "LA_T_1001")
      with (Some 0) in H1.
    injection H0 as <-. injection H1 as <-.
    exists outputs, w', cos. split; [exact Hrun|].
    exact (Hloss "unused"%string).
Defined.

(** ** Default statistics *)

Lemma broadcast2_constant (f : tval → tval → tval) (g : Qc → tval) (c : tval)
    (xs : list Qc) (n : nat) :
  length xs = n → (∀ x, f (Fin x) c = g x) →
  broadcast2 f (Fin <$> xs) (replicate n c) = Ok (g <$> xs).
Proof.
  intros <- Hf. unfold broadcast2.
  rewrite decide_True by (by rewrite length_fmap, length_replicate).
  f_equal. induction xs as [|x xs IH]; [done|].
  cbn. by rewrite Hf, IH.
Qed.

Lemma mapM_result_fmap {A B C} (f : B → result C) (h : A → B) (g : A → C)
    (l : list A) :
  Forall (λ a, f (h a) = Ok (g a)) l → mapM f (h <$> l) = Ok (g <$> l).
Proof.
  intros Hall. apply mapM_result_Ok.
  apply Forall2_fmap, Forall_Forall2_diag.
  eapply Forall_impl; [exact Hall|]. by intros a Ha.
Qed.

Section DefaultStatistics.
Context {wave frame emb aux : Type}.
Variable ResNet : nat → Z → @backbone frame emb aux.
Variable LFCC : Z → Z → Z → Z → Z → @frontend wave frame.
Variable OCAngleLayer : nat → Z → @anglelayer emb.

Lemma Model_init_statistics hp (in_dim out_dim : Z) mean_std temp_buffer
    w self w' :
  Model_init ResNet LFCC OCAngleLayer hp in_dim out_dim mean_std temp_buffer w
  = (Ok self, w') →
  ∃ w1, prepare_mean_std in_dim out_dim mean_std w
        = (Ok (input_mean self, input_std self,
               output_mean self, output_std self), w1).
Proof.
  unfold Model_init. intros Hinit.
  apply bind_Ok_inv in Hinit
    as ([[[in_m in_s] out_m] out_s] & w1 & Hstats & Hinit).
  apply bind_Ok_inv in Hinit as (parser & w2 & _ & Hinit).
  apply bind_Ok_inv in Hinit as (truncate_lens & w3 & _ & Hinit).
  apply bind_Ok_inv in Hinit as ([[models frontends] softmaxes] & w4 & _
                                 & Hinit).
  injection Hinit as <- _. by exists w1.
Qed.

(** X13.  On a model constructed without statistics, whatever the
    dimensions, [normalize_input] divides every entry by zero, so that a
    finite entry becomes plus infinity, minus infinity or not-a-number by
    its sign, [normalize_target] subtracts one from every entry and
    [denormalize_output] adds one to every entry. *)
Theorem default_statistics_shift hp (in_dim out_dim : Z) temp_buffer
    w self w' :
  Model_init ResNet LFCC OCAngleLayer hp in_dim out_dim None temp_buffer w
  = (Ok self, w') →
  0 ≤ in_dim → 0 ≤ out_dim →
  (∀ xq : list (list Qc),
     Forall (λ row, Z.of_nat (length row) = in_dim) xq →
     normalize_input self (fin_rows xq)
     = Ok ((λ row : list Qc, inf_of_sign <$> row) <$> xq))
  ∧ (∀ yq : list (list Qc),
       Forall (λ row, Z.of_nat (length row) = out_dim) yq →
       normalize_target self (fin_rows yq)
       = Ok (fin_rows ((λ row : list Qc, (λ y, y - 1)%Qc <$> row) <$> yq))
       ∧ denormalize_output self (fin_rows yq)
         = Ok (fin_rows ((λ row : list Qc, (λ y, y + 1)%Qc <$> row) <$> yq))).
Proof.
  intros Hinit Hin Hout.
  destruct (Model_init_statistics _ _ _ _ _ _ _ _ Hinit) as [w1 Hstats].
  rewrite (prepare_mean_std_None in_dim out_dim w Hin Hout) in Hstats.
  injection Hstats as Him His Hom Hos _.
  split; [|intros yq Hrows; split].
  - intros xq Hrows. unfold normalize_input, fin_rows.
    rewrite <- Him, <- His. apply mapM_result_fmap.
    eapply Forall_impl; [exact Hrows|]. intros row Hrow. cbn in Hrow |- *.
    rewrite (broadcast2_constant tsub (λ x, Fin (x - 0)%Qc)) by (done || lia).
    cbn. rewrite (list_fmap_compose (λ x, x - 0)%Qc Fin).
    rewrite (broadcast2_constant tdiv (λ x, inf_of_sign x)).
    + f_equal. rewrite <- list_fmap_compose. apply list_fmap_ext.
      intros i x _. cbn. f_equal. ring.
    + rewrite length_fmap. lia.
    + intros x. unfold tdiv, tzero. by rewrite decide_True.
  - unfold normalize_target, fin_rows.
    rewrite <- Hom, <- Hos, <- list_fmap_compose. apply mapM_result_fmap.
    eapply Forall_impl; [exact Hrows|]. intros row Hrow. cbn in Hrow |- *.
    rewrite (broadcast2_constant tsub (λ x, Fin (x - 1)%Qc)) by (done || lia).
    cbn. rewrite (list_fmap_compose (λ x, x - 1)%Qc Fin).
    rewrite (broadcast2_constant tdiv (λ x, Fin x)).
    + done.
    + rewrite length_fmap. lia.
    + intros x. unfold tone. rewrite tdiv_finite by by_evaluation.
      f_equal. field. by_evaluation.
  - unfold denormalize_output, fin_rows.
    rewrite <- Hom, <- Hos, <- list_fmap_compose. apply mapM_result_fmap.
    eapply Forall_impl; [exact Hrows|]. intros row Hrow. cbn in Hrow |- *.
    rewrite (broadcast2_constant tmul (λ x, Fin x)); [|lia|].
    2:{ intros x. unfold tone. cbn. f_equal. ring. }
    cbn. rewrite (broadcast2_constant tadd (λ x, Fin (x + 1)%Qc));
      [|lia|done].
    by rewrite <- list_fmap_compose.
Qed.

End DefaultStatistics.

Lemma default_statistics_shift_witness :
  normalize_input Toy.single (fin_rows [[1%Qc]; [(- 1)%Qc]; [0%Qc]])
  = Ok [[PInf]; [NInf]; [NaN]]
  ∧ normalize_target Toy.single (fin_rows [[Qc_of_Z 5]])
    = Ok (fin_rows [[(Qc_of_Z 5 - 1)%Qc]])
  ∧ denormalize_output Toy.single (fin_rows [[Qc_of_Z 5]])
    = Ok (fin_rows [[(Qc_of_Z 5 + 1)%Qc]]).
Proof.
  destruct (default_statistics_shift Toy.ResNet Toy.LFCC Toy.OCAngleLayer
              source_hparams 1 1 Toy.listing Toy.w0 Toy.single Toy.w0)
    as [Hinput Htarget].
  - reflexivity.
  - lia.
  - lia.
  - split_and!.
    + apply (Hinput [[1%Qc]; [(- 1)%Qc]; [0%Qc]]). repeat constructor.
    + apply (Htarget [[Qc_of_Z 5]]). repeat constructor.
    + apply (Htarget [[Qc_of_Z 5]]). repeat constructor.
Defined.

(** ** A protocol file of a single line *)









